(** * volt: the binary peer tree of [volt/executor/impl_btree.py]

    A shallow embedding of the tree of peers ([BTreeNode], [BTree]) and of
    the registry ([BtreeExecutor]) that tracks one tree per volume.  Python
    objects live in an explicit store, so that the aliasing between the
    [left]/[right]/[parent] links, the [nodes] dictionary and the host index
    is the one of the source. *)

From stdpp Require Import base option list gmap strings fin_maps.
From Stdlib Require Import Lia.

Local Open Scope string_scope.
Local Open Scope list_scope.
Local Open Scope nat_scope.

(** ** Environment *)

(** [utils.generate_uuid]: the code only asks the environment for the next
    identifier.  [generate_uuid n] is the identifier handed out by the
    [n]-th call. *)
Class UuidGen := { generate_uuid : nat → string }.

(** Modelled from the spec: the exception classes of
    [volt.common.exception], a module that is not among the sources.  The
    spec (section 7) lists [InvalidParameter], [DuplicateItem] and
    [NotFound] as kinds of their own, and has the registry turn the first
    into the last; [Duplicate] is the class [add_host_bookkeeping] raises.
    [AttributeError] and [KeyError] are the interpreter's. *)
Inductive exn :=
  | InvalidParameterValue
  | DuplicateItem
  | Duplicate
  | NotFound
  | AttributeError
  | KeyError.

#[global] Instance exn_eq_dec : EqDecision exn.
Proof. solve_decision. Defined.

(** ** Objects *)

(** A reference to a [BTreeNode] object. *)
Notation loc := nat (only parsing).

Record BTreeNode := mkNode {
  peer_id : string;
  host : option string;
  port : option string;
  iqn : option string;
  lun : option string;
  left : option loc;
  right : option loc;
  parent : option loc;
  status : option string;
  fake_root : bool
}.

Record BTree := mkTree {
  root : option loc;
  volume_id : string;
  nodes : gmap string loc
}.

(** The object store: node objects by reference, and the number of
    identifiers handed out so far. *)
Record store := mkStore {
  heap : list BTreeNode;
  uuid_ctr : nat
}.

(** ** Computations

    A call runs on the store and on the object [X] it is a method of.  An
    exception carries the state at the point where it was raised: whatever
    was mutated before stays mutated. *)
Inductive result (S A : Type) :=
  | Ok (a : A) (s : S)
  | Raise (e : exn) (s : S)
  | OutOfFuel
  | Dangling.
Arguments Ok {S A} a s.
Arguments Raise {S A} e s.
Arguments OutOfFuel {S A}.
Arguments Dangling {S A}.

Definition M (X A : Type) : Type := store * X → result (store * X) A.

Definition ret {X A} (a : A) : M X A := λ s, Ok a s.

Definition bind {X A B} (m : M X A) (k : A → M X B) : M X B :=
  λ s, match m s with
       | Ok a s' => k a s'
       | Raise e s' => Raise e s'
       | OutOfFuel => OutOfFuel
       | Dangling => Dangling
       end.

Notation "'let*' x ':=' m 'in' k" := (bind m (λ x, k))
  (at level 10, x name, m at level 100, k at level 200).

Definition raise {X A} (e : exn) : M X A := λ s, Raise e s.
Definition diverge {X A} : M X A := λ _, OutOfFuel.

Definition get_self {X} : M X X := λ s, Ok (snd s) s.
Definition put_self {X} (x : X) : M X unit := λ s, Ok tt (fst s, x).

Definition read {X} (l : loc) : M X BTreeNode :=
  λ s, match heap (fst s) !! l with
       | Some n => Ok n s
       | None => Dangling
       end.

Definition write {X} (l : loc) (n : BTreeNode) : M X unit :=
  λ s, Ok tt (mkStore (<[l := n]> (heap (fst s))) (uuid_ctr (fst s)), snd s).

Definition alloc {X} (n : BTreeNode) : M X loc :=
  λ s, Ok (length (heap (fst s)))
          (mkStore (heap (fst s) ++ [n]) (uuid_ctr (fst s)), snd s).

Definition gen_uuid `{UuidGen} {X} : M X string :=
  λ s, Ok (generate_uuid (uuid_ctr (fst s)))
          (mkStore (heap (fst s)) (S (uuid_ctr (fst s))), snd s).

(** Run a method of [Y] from a method of [X]: [get] finds the object,
    [put] stores what it has become, also when the method raised. *)
Definition zoom {X Y A} (get : X → option Y) (put : Y → X → X)
    (m : M Y A) : M X A :=
  λ s, match get (snd s) with
       | None => Raise KeyError s
       | Some y =>
           match m (fst s, y) with
           | Ok a s' => Ok a (fst s', put (snd s') (snd s))
           | Raise e s' => Raise e (fst s', put (snd s') (snd s))
           | OutOfFuel => OutOfFuel
           | Dangling => Dangling
           end
       end.

(** Field assignments [node.f = v]. *)
Definition with_left (v : option loc) (n : BTreeNode) : BTreeNode :=
  mkNode (peer_id n) (host n) (port n) (iqn n) (lun n)
         v (right n) (parent n) (status n) (fake_root n).
Definition with_right (v : option loc) (n : BTreeNode) : BTreeNode :=
  mkNode (peer_id n) (host n) (port n) (iqn n) (lun n)
         (left n) v (parent n) (status n) (fake_root n).
Definition with_parent (v : option loc) (n : BTreeNode) : BTreeNode :=
  mkNode (peer_id n) (host n) (port n) (iqn n) (lun n)
         (left n) (right n) v (status n) (fake_root n).

Definition set_left {X} (l : loc) (v : option loc) : M X unit :=
  let* n := read l in write l (with_left v n).
Definition set_right {X} (l : loc) (v : option loc) : M X unit :=
  let* n := read l in write l (with_right v n).
Definition set_parent {X} (l : loc) (v : option loc) : M X unit :=
  let* n := read l in write l (with_parent v n).

(** Python truth value of a string or [None]. *)
Definition truthy (o : option string) : bool :=
  match o with
  | Some s => negb (String.eqb s "")
  | None => false
  end.

(** ** BTreeNode *)

(** [BTreeNode.__init__] *)
Definition new_BTreeNode `{UuidGen} {X} (pid host port iqn lun : option string)
    (left right parent : option loc) (status : option string)
    (fake_root : bool) : M X loc :=
  let* p := (if truthy pid then ret (default "" pid) else gen_uuid) in
  alloc (mkNode p host port iqn lun left right parent status fake_root).

(** [BTreeNode.available] *)
Definition available (n : BTreeNode) : bool :=
  bool_decide (status n = Some "OK") &&
  (negb (bool_decide (is_Some (left n))) || negb (bool_decide (is_Some (right n)))).

(** The dictionary of [BTreeNode.identity]. *)
Record identity_t := mkIdentity {
  id_host : option string;
  id_port : option string;
  id_iqn : option string;
  id_lun : option string;
  id_status : option string;
  id_peer_id : string
}.

Definition identity (n : BTreeNode) : identity_t :=
  mkIdentity (host n) (port n) (iqn n) (lun n) (status n) (peer_id n).

(** ** tree_find_available_slot

    The queue holds references and [None]s alike; [None.available()] is an
    [AttributeError]. *)
Fixpoint bfs_loop {X} (fuel : nat) (node_queue : list (option loc))
    : M X (option loc) :=
  match fuel with
  | 0 => diverge
  | S fuel' =>
      match node_queue with
      | [] => ret None
      | None :: _ => raise AttributeError
      | Some l :: q =>
          let* node := read l in
          if available node then ret (Some l)
          else bfs_loop fuel' (q ++ [left node; right node])
      end
  end.

Definition tree_find_available_slot {X} (fuel : nat) (tree_root : option loc)
    : M X (option loc) :=
  bfs_loop fuel [tree_root].

(** ** BTree *)

(** [BTree.__init__] *)
Definition BTree_init `{UuidGen} {X} (volume_id : string) (root : option loc)
    : M X BTree :=
  let* r := match root with
            | Some r => ret r
            | None =>
                let* h := gen_uuid in
                let* p := gen_uuid in
                let* i := gen_uuid in
                let* l := gen_uuid in
                new_BTreeNode None (Some h) (Some p) (Some i) (Some l)
                              None None None (Some "OK") true
            end in
  let* _ := set_left r None in
  let* _ := set_right r None in
  let* _ := set_parent r None in
  let* n := read r in
  ret (mkTree (Some r) volume_id {[ peer_id n := r ]}).

Definition with_root (v : option loc) (t : BTree) : BTree :=
  mkTree v (volume_id t) (nodes t).
Definition with_nodes (m : gmap string loc) (t : BTree) : BTree :=
  mkTree (root t) (volume_id t) m.

(** [BTree.insert_by_node] *)
Definition insert_by_node (fuel : nat) (new_node : option loc)
    : M BTree (option loc) :=
  match new_node with
  | None => raise InvalidParameterValue
  | Some nl =>
      let* nn := read nl in
      let* self := get_self in
      if bool_decide (is_Some (nodes self !! peer_id nn)) then
        raise InvalidParameterValue
      else if bool_decide (is_Some (parent nn)) then
        raise InvalidParameterValue
      else
        let* slot := tree_find_available_slot fuel (root self) in
        let* _ := put_self (with_nodes (<[peer_id nn := nl]> (nodes self)) self) in
        let* _ := set_left nl None in
        let* _ := set_right nl None in
        let* _ := set_parent nl slot in
        match slot with
        | None => raise AttributeError
        | Some s =>
            let* sn := read s in
            let* _ := (if bool_decide (is_Some (left sn))
                       then set_right s (Some nl)
                       else set_left s (Some nl)) in
            ret slot
        end
  end.

(** The loop [while not current.available(): if current.left: current =
    current.left] of [tree_remove_by_node]. *)
Fixpoint left_spine_walk {X} (fuel : nat) (current : loc) : M X loc :=
  match fuel with
  | 0 => diverge
  | S fuel' =>
      let* cn := read current in
      if available cn then ret current
      else match left cn with
           | Some l => left_spine_walk fuel' l
           | None => left_spine_walk fuel' current
           end
  end.

(** [BTree.tree_remove_by_node], the part that picks [up]: the subtree
    that takes the place of [target]. *)
Definition replacement (fuel : nat) (t : loc) : M BTree (option loc) :=
  let* tn := read t in
  match left tn, right tn with
  | Some l, Some r =>
      let* current := left_spine_walk fuel t in
      let* _ := set_parent r (Some current) in
      let* cn := read current in
      let* _ := (if bool_decide (is_Some (left cn))
                 then set_right current (Some r)
                 else set_left current (Some r)) in
      ret (Some l)
  | Some l, None => ret (Some l)
  | None, Some r => ret (Some r)
  | None, None => ret None
  end.

(** [BTree.tree_remove_by_node], the part that puts [up] where [target]
    was. *)
Definition relink (t : loc) (up : option loc) : M BTree unit :=
  let* _ := match up with
            | Some u => let* tn := read t in set_parent u (parent tn)
            | None => ret tt
            end in
  let* tn := read t in
  let* _ := match parent tn with
            | Some p =>
                let* pn := read p in
                if bool_decide (left pn = Some t)
                then set_left p up
                else set_right p up
            | None => ret tt
            end in
  let* self := get_self in
  if bool_decide (Some t = root self)
  then put_self (with_root up self)
  else ret tt.

(** [BTree.tree_remove_by_node] *)
Fixpoint tree_remove_by_node (fuel : nat) (target : option loc)
    : M BTree loc :=
  match fuel with
  | 0 => diverge
  | S fuel' =>
      match target with
      | None => raise InvalidParameterValue
      | Some t =>
          let* tn := read t in
          let* _ :=
            (if bool_decide (status tn = Some "pending") then
               let* _ := match left tn with
                         | Some l =>
                             let* _ := tree_remove_by_node fuel' (Some l) in
                             ret tt
                         | None => ret tt
                         end in
               let* tn := read t in
               match right tn with
               | Some r =>
                   let* _ := tree_remove_by_node fuel' (Some r) in ret tt
               | None => ret tt
               end
             else ret tt) in
          let* up := replacement fuel' t in
          let* _ := relink t up in
          ret t
      end
  end.

(** [BTree.insert_by_peer_id] *)
Definition insert_by_peer_id `{UuidGen} (fuel : nat) (pid : string)
    : M BTree (option loc) :=
  let* self := get_self in
  if bool_decide (is_Some (nodes self !! pid)) then raise DuplicateItem
  else
    let* node := new_BTreeNode (Some pid) None None None None
                               None None None None false in
    insert_by_node fuel (Some node).

(** [BTree.remove_by_peer_id] *)
Definition remove_by_peer_id (fuel : nat) (pid : string) : M BTree loc :=
  let* self := get_self in
  match nodes self !! pid with
  | None => raise InvalidParameterValue
  | Some target =>
      let* _ := tree_remove_by_node fuel (Some target) in
      let* self := get_self in
      let* _ := put_self (with_nodes (delete pid (nodes self)) self) in
      ret target
  end.

(** [BTree.count] *)
Definition count (t : BTree) : nat := size (nodes t).

(** [BTree.get_node_parent] *)
Definition get_node_parent (pid : string) : M BTree (option loc) :=
  let* self := get_self in
  match nodes self !! pid with
  | None => raise InvalidParameterValue
  | Some l => let* n := read l in ret (parent n)
  end.

Definition with_fields (pid : string) (h p i l s : option string)
    (n : BTreeNode) : BTreeNode :=
  mkNode pid h p i l (left n) (right n) (parent n) s (fake_root n).

(** [BTree.update_nodes] *)
Definition update_nodes `{UuidGen} (fuel : nat) (pid : option string)
    (h p i l s : option string) : M BTree loc :=
  let* pid := match pid with Some p => ret p | None => gen_uuid end in
  let* self := get_self in
  let* target :=
    match nodes self !! pid with
    | None =>
        let* target := new_BTreeNode (Some pid) h p i l
                                     None None None s false in
        let* _ := insert_by_node fuel (Some target) in
        ret target
    | Some target =>
        let* tn := read target in
        let* _ := write target (with_fields pid h p i l s tn) in
        ret target
    end in
  let* tn := read target in
  let* _ :=
    (if bool_decide (status tn = Some "pending") then
       let* _ := match left tn with
                 | Some c =>
                     let* _ := tree_remove_by_node fuel (Some c) in ret tt
                 | None => ret tt
                 end in
       let* tn := read target in
       match right tn with
       | Some c => let* _ := tree_remove_by_node fuel (Some c) in ret tt
       | None => ret tt
       end
     else ret tt) in
  ret target.

(** ** BtreeExecutor *)

Record BtreeExecutor := mkExec {
  volumes : gmap string BTree;
  host_to_volumes : gmap (option string) (gmap string loc)
}.

(** [BtreeExecutor.__init__] *)
Definition BtreeExecutor_init : BtreeExecutor := mkExec ∅ ∅.

Definition with_volume (vid : string) (t : BTree) (e : BtreeExecutor)
    : BtreeExecutor :=
  mkExec (<[vid := t]> (volumes e)) (host_to_volumes e).
Definition with_hosts (m : gmap (option string) (gmap string loc))
    (e : BtreeExecutor) : BtreeExecutor :=
  mkExec (volumes e) m.

(** A method call on [self.volumes[vid]]. *)
Definition on_volume {A} (vid : string) (m : M BTree A) : M BtreeExecutor A :=
  zoom (λ e, volumes e !! vid) (with_volume vid) m.

(** [try: m except e1: raise e2] *)
Definition reraise {X A} (e1 e2 : exn) (m : M X A) : M X A :=
  λ s, match m s with
       | Raise e s' => if bool_decide (e = e1) then Raise e2 s' else Raise e s'
       | r => r
       end.


(** The dictionaries built by [get_volumes_detail]. *)
Record detail_t := mkDetail {
  d_host : option string;
  d_port : option string;
  d_iqn : option string;
  d_lun : option string;
  d_status : option string
}.

(** Modelled from the spec: the base class [executor.Executor], which is not
    part of the sources at hand.  The registry of the spec holds [volumes]
    and [host_to_volumes] and nothing else, and [BtreeExecutor.__init__]
    sets these two attributes only, so that reading [self.nodes] on a
    [BtreeExecutor] is an [AttributeError]. *)
Definition executor_nodes : M BtreeExecutor (gmap string loc) :=
  raise AttributeError.

(** The loop [for peer_id in volumes_nodes] of [get_volumes_detail]. *)
Fixpoint detail_loop (pids : list string) (volumes_list : list detail_t)
    : M BtreeExecutor (list detail_t) :=
  match pids with
  | [] => ret volumes_list
  | pid :: rest =>
      let* ns := executor_nodes in
      match ns !! pid with
      | None => raise KeyError
      | Some l =>
          let* tree_node := read l in
          detail_loop rest
            (volumes_list ++ [mkDetail (host tree_node) (port tree_node)
                                (iqn tree_node) (lun tree_node)
                                (status tree_node)])
      end
  end.

(** [BtreeExecutor.get_volumes_detail] *)
Definition get_volumes_detail (vid : string)
    : M BtreeExecutor (list detail_t) :=
  let* self := get_self in
  let volumes_nodes :=
    match volumes self !! vid with
    | None => []
    | Some volumes_tree => (map_to_list (nodes volumes_tree)).*1
    end in
  detail_loop volumes_nodes [].

(** [BtreeExecutor.add_volume_metadata] *)
Definition add_volume_metadata `{UuidGen} (fuel : nat) (vid : string)
    (pid : option string) (h p i l : option string)
    : M BtreeExecutor identity_t :=
  let* self := get_self in
  if bool_decide (is_Some (volumes self !! vid)) then
    let* target := on_volume vid
                     (update_nodes fuel pid h p i l (Some "OK")) in
    let* tn := read target in
    ret (identity tn)
  else raise NotFound.

(** [BtreeExecutor.remove_host_bookkeeping] *)
Definition remove_host_bookkeeping (h : option string) (pid : string)
    : M BtreeExecutor unit :=
  let* self := get_self in
  match host_to_volumes self !! h with
  | None => raise NotFound
  | Some volumes_list =>
      if bool_decide (is_Some (volumes_list !! pid)) then
        put_self (with_hosts (<[h := delete pid volumes_list]>
                                (host_to_volumes self)) self)
      else raise NotFound
  end.

(** [BtreeExecutor.add_host_bookkeeping] *)
Definition add_host_bookkeeping (h : option string) (pid : string)
    (node : loc) : M BtreeExecutor unit :=
  let* self := get_self in
  let* volumes_list :=
    match host_to_volumes self !! h with
    | Some volumes_list => ret volumes_list
    | None =>
        let* _ := put_self (with_hosts (<[h := ∅]> (host_to_volumes self))
                                       self) in
        ret ∅
    end in
  if bool_decide (is_Some (volumes_list !! pid)) then raise Duplicate
  else
    let* self := get_self in
    put_self (with_hosts (<[h := <[pid := node]> volumes_list]>
                            (host_to_volumes self)) self).

(** [BtreeExecutor.delete_volume_metadata] *)
Definition delete_volume_metadata (fuel : nat) (vid : string)
    (pid : option string) : M BtreeExecutor unit :=
  match pid with
  | None => raise InvalidParameterValue
  | Some pid =>
      let* self := get_self in
      match volumes self !! vid with
      | None => raise NotFound
      | Some vol_tree =>
          reraise InvalidParameterValue NotFound
            (match nodes vol_tree !! pid with
             | None => raise InvalidParameterValue
             | Some node =>
                 let* n := read node in
                 let* _ := remove_host_bookkeeping (host n) pid in
                 let* _ := on_volume vid (remove_by_peer_id fuel pid) in
                 ret tt
             end)
      end
  end.

(** [BtreeExecutor.get_volume_parents]: the peer id and the list
    [parents] of the dictionary it returns. *)
Definition get_volume_parents `{UuidGen} (fuel : nat)
    (vid pid h : option string) : M BtreeExecutor (string * list identity_t) :=
  if bool_decide (pid = None ∧ h = None) then raise InvalidParameterValue
  else
    match vid with
    | None => raise InvalidParameterValue
    | Some vid =>
        let* self := get_self in
        let* _ := (if bool_decide (is_Some (volumes self !! vid)) then ret tt
                   else
                     let* t := BTree_init vid None in
                     let* self := get_self in
                     put_self (with_volume vid t self)) in
        let* pt :=
          (if truthy pid then
             let pid := default "" pid in
             let* self := get_self in
             match volumes self !! vid with
             | None => raise KeyError
             | Some t =>
                 match nodes t !! pid with
                 | None => raise NotFound
                 | Some target => ret (pid, target)
                 end
             end
           else
             let* pid := gen_uuid in
             let* new_node := new_BTreeNode (Some pid) h None None None
                                None None None (Some "pending") false in
             let* _ := on_volume vid (insert_by_node fuel (Some new_node)) in
             let* _ := add_host_bookkeeping h pid new_node in
             let* self := get_self in
             match volumes self !! vid with
             | None => raise KeyError
             | Some t =>
                 match nodes t !! pid with
                 | None => raise KeyError
                 | Some target => ret (pid, target)
                 end
             end) in
        let* tn := read (snd pt) in
        let* self := get_self in
        match volumes self !! vid with
        | None => raise KeyError
        | Some t =>
            if bool_decide (parent tn = root t) then ret (fst pt, [])
            else
              match parent tn with
              | None => raise AttributeError
              | Some p =>
                  let* pn := read p in
                  ret (fst pt, [identity pn])
              end
        end
    end.

(** The loop [for (peer_id, volume) in volume_list.iteritems()] of
    [update_status]. *)
Fixpoint status_loop (entries : list (string * loc))
    (volume_info : list (string * list identity_t))
    : M BtreeExecutor (list (string * list identity_t)) :=
  match entries with
  | [] => ret volume_info
  | (pid, node) :: rest =>
      let* volume := read node in
      match parent volume with
      | None => raise AttributeError
      | Some p =>
          let* pn := read p in
          let parents_list := if fake_root pn then [] else [identity pn] in
          status_loop rest (volume_info ++ [(pid, parents_list)])
      end
  end.

(** [BtreeExecutor.update_status] *)
Definition update_status (h : option string)
    : M BtreeExecutor (list (string * list identity_t)) :=
  let* self := get_self in
  match host_to_volumes self !! h with
  | None => ret []
  | Some volume_list => status_loop (map_to_list volume_list) []
  end.

(** An identifier source for worked examples: [x], [xx], [xxx], ... *)
Fixpoint demo_id (n : nat) : string :=
  match n with
  | 0 => "x"
  | S k => "x" +:+ demo_id k
  end.
Definition demo_uuid : UuidGen := {| generate_uuid := demo_id |}.

Definition empty_store : store := mkStore [] 0.

(** ** Clients of the tree *)

(** [tree.insert_by_node(BTreeNode(peer_id=.., host=.., .., status=..))] *)
Definition insert_new_node `{UuidGen} (fuel : nat)
    (pid h p i l s : option string) : M BTree (option loc) :=
  let* n := new_BTreeNode pid h p i l None None None s false in
  insert_by_node fuel (Some n).

(** What a client may do with a tree and with node objects of its own. *)
Inductive tree_op :=
  | OpNewNode (pid h p i l : option string) (lt rt pt : option loc)
              (s : option string) (fr : bool)
  | OpInsertByNode (new_node : option loc)
  | OpInsertNewNode (pid h p i l s : option string)
  | OpInsertByPeerId (pid : string)
  | OpRemoveByPeerId (pid : string).

(** One operation, its result dropped. *)
Definition run_op `{UuidGen} (fuel : nat) (o : tree_op) : M BTree unit :=
  match o with
  | OpNewNode pid h p i l lt rt pt s fr =>
      let* _ := new_BTreeNode pid h p i l lt rt pt s fr in ret tt
  | OpInsertByNode n => let* _ := insert_by_node fuel n in ret tt
  | OpInsertNewNode pid h p i l s =>
      let* _ := insert_new_node fuel pid h p i l s in ret tt
  | OpInsertByPeerId pid => let* _ := insert_by_peer_id fuel pid in ret tt
  | OpRemoveByPeerId pid => let* _ := remove_by_peer_id fuel pid in ret tt
  end.

(** The operations one after the other, until one does not return. *)
Fixpoint run_ops `{UuidGen} (fuel : nat) (os : list tree_op) : M BTree unit :=
  match os with
  | [] => ret tt
  | o :: os' => let* _ := run_op fuel o in run_ops fuel os'
  end.

(** A tree object made by [BTree(volume_id, root)], then the operations. *)
Definition fresh_tree_then `{UuidGen} {A} (vid : string) (r : option loc)
    (m : M BTree A) (st : store) : result (store * BTree) A :=
  match BTree_init vid r (st, tt) with
  | Ok t s => m (fst s, t)
  | Raise e s => Raise e (fst s, mkTree None vid ∅)
  | OutOfFuel => OutOfFuel
  | Dangling => Dangling
  end.

(** A peer as a client describes it. *)
Record peer := mkPeer {
  p_id : string;
  p_host : option string;
  p_port : option string;
  p_iqn : option string;
  p_lun : option string
}.

(** [tree.insert_by_node(BTreeNode(.., status='OK'))] *)
Definition insert_ok_op (a : peer) : tree_op :=
  OpInsertNewNode (Some (p_id a)) (p_host a) (p_port a) (p_iqn a) (p_lun a)
                  (Some "OK").

(** [BTree(volume_id, BTreeNode(.., status='OK'))], then one
    [insert_by_node] of an [OK] node per peer. *)
Definition build_ok_tree `{UuidGen} (fuel : nat) (vid : string) (rt : peer)
    (ps : list peer) (st : store) : result (store * BTree) unit :=
  match new_BTreeNode (Some (p_id rt)) (p_host rt) (p_port rt) (p_iqn rt)
                      (p_lun rt) None None None (Some "OK") false (st, tt) with
  | Ok r s => fresh_tree_then vid (Some r) (run_ops fuel (insert_ok_op <$> ps))
                              (fst s)
  | Raise e s => Raise e (fst s, mkTree None vid ∅)
  | OutOfFuel => OutOfFuel
  | Dangling => Dangling
  end.

(** ** Reachability and the structure of a tree *)

(** The nodes one gets to from the root through [left] and [right]. *)
Inductive reach (h : list BTreeNode) (r : option loc) : loc → Prop :=
  | reach_root l : r = Some l → reach h r l
  | reach_left p n c :
      reach h r p → h !! p = Some n → left n = Some c → reach h r c
  | reach_right p n c :
      reach h r p → h !! p = Some n → right n = Some c → reach h r c.

(** The invariant of the data model: parents agree with children, the
    root has no parent, and [nodes] indexes exactly the reachable nodes. *)
Definition structural_invariant (h : list BTreeNode) (t : BTree) : Prop :=
  (∀ l, reach h (root t) l → root t ≠ Some l →
        ∃ n p pn, h !! l = Some n ∧ parent n = Some p ∧ h !! p = Some pn ∧
                  (left pn = Some l ∨ right pn = Some l)) ∧
  (∀ r, root t = Some r → ∃ n, h !! r = Some n ∧ parent n = None) ∧
  (∀ pid, is_Some (nodes t !! pid) ↔
          ∃ l n, reach h (root t) l ∧ h !! l = Some n ∧ peer_id n = pid).

(** The shape the links draw in the store. *)
Inductive shape :=
  | Leaf
  | Nd (l : loc) (a b : shape).

(** What a link to the shape holds. *)
Definition root_of (sh : shape) : option loc :=
  match sh with
  | Leaf => None
  | Nd l _ _ => Some l
  end.

(** The nodes of a shape, root first. *)
Fixpoint locs (sh : shape) : list loc :=
  match sh with
  | Leaf => []
  | Nd l a b => l :: locs a ++ locs b
  end.

(** The store [h] holds the shape [sh] under the parent [par]: every node
    of the shape points to its parent and to the roots of its two
    subshapes. *)
Fixpoint repr (h : list BTreeNode) (par : option loc) (sh : shape) : Prop :=
  match sh with
  | Leaf => True
  | Nd l a b =>
      ∃ n, h !! l = Some n ∧ parent n = par ∧
           left n = root_of a ∧ right n = root_of b ∧
           repr h (Some l) a ∧ repr h (Some l) b
  end.

(** The subshape rooted at [l], [Leaf] if [l] is not in the shape. *)
Fixpoint subtree_at (l : loc) (sh : shape) : shape :=
  match sh with
  | Leaf => Leaf
  | Nd x a b =>
      if decide (x = l) then sh
      else match subtree_at l a with
           | Leaf => subtree_at l b
           | s => s
           end
  end.

(** The shape with [u] in place of the subshape rooted at [l]. *)
Fixpoint subst (l : loc) (u : shape) (sh : shape) : shape :=
  match sh with
  | Leaf => Leaf
  | Nd x a b =>
      if decide (x = l) then u else Nd x (subst l u a) (subst l u b)
  end.

(** Hang [w] under node [c]: as its left child if it has none, as its
    right child otherwise. *)
Definition attach (c : loc) (w : shape) (sh : shape) : shape :=
  match subtree_at c sh with
  | Leaf => sh
  | Nd _ Leaf b => subst c (Nd c w b) sh
  | Nd _ a _ => subst c (Nd c a w) sh
  end.

(** What the operations keep true of a tree: the links draw a shape
    without sharing, [nodes] indexes its nodes by their peer ids, and a
    pending node has no child. *)
Definition tree_inv (h : list BTreeNode) (t : BTree) : Prop :=
  ∃ sh, root t = root_of sh ∧ repr h None sh ∧ NoDup (locs sh) ∧
        (∀ pid l, nodes t !! pid = Some l ↔
                  l ∈ locs sh ∧ ∃ n, h !! l = Some n ∧ peer_id n = pid) ∧
        (∀ l n, l ∈ locs sh → h !! l = Some n →
                status n = Some "pending" → left n = None ∧ right n = None).

(** The node at position [i] of the level order: 1 is the root, [2i] and
    [2i+1] are the children of [i]. *)
Fixpoint at_pos (h : list BTreeNode) (r : option loc) (i : positive)
    : option loc :=
  match i with
  | xH => r
  | xO p => at_pos h r p ≫= λ l, h !! l ≫= left
  | xI p => at_pos h r p ≫= λ l, h !! l ≫= right
  end.

(** A complete tree of the peers [ids], in this order: position [i] holds
    the [i]-th of them, an [OK] node that [nodes] knows, and the positions
    after the last are empty. *)
Definition complete_inv (h : list BTreeNode) (t : BTree) (ids : list string)
    : Prop :=
  (∀ i, Pos.to_nat i ≤ length ids →
        ∃ l n, at_pos h (root t) i = Some l ∧ h !! l = Some n ∧
               status n = Some "OK" ∧ nodes t !! peer_id n = Some l ∧
               ids !! (Pos.to_nat i - 1) = Some (peer_id n)) ∧
  (∀ i, length ids < Pos.to_nat i → at_pos h (root t) i = None) ∧
  (∀ i j l, Pos.to_nat i ≤ length ids → Pos.to_nat j ≤ length ids →
            at_pos h (root t) i = Some l → at_pos h (root t) j = Some l →
            i = j) ∧
  (∀ pid, is_Some (nodes t !! pid) → pid ∈ ids).

(** ** Relations between stores, scenarios and clients of the registry *)

(** [n'] is [n] with its links to [l] turned into [v]. *)
Definition redirect (l : loc) (v : option loc) (n n' : BTreeNode) : Prop :=
  parent n' = parent n ∧
  left n' = (if decide (left n = Some l) then v else left n) ∧
  right n' = (if decide (right n = Some l) then v else right n).

(** What an operation may do to a node: it keeps its peer id and status,
    and changes its children only if it is [OK] or already had one. *)
Definition node_step (n n' : BTreeNode) : Prop :=
  peer_id n' = peer_id n ∧ status n' = status n ∧
  ((left n' = left n ∧ right n' = right n) ∨
   status n = Some "OK" ∨ is_Some (left n) ∨ is_Some (right n)).

(** Every node of [h] is in [h'], changed as [node_step] allows. *)
Definition heap_step (h h' : list BTreeNode) : Prop :=
  ∀ x n, h !! x = Some n → ∃ n', h' !! x = Some n' ∧ node_step n n'.

(** [m] raises nothing, and leaves [nodes] alone. *)
Definition quiet {A} (m : M BTree A) : Prop :=
  ∀ s, match m s with
       | Ok _ s' => nodes (snd s') = nodes (snd s)
       | Raise _ _ => False
       | _ => True
       end.

(** Run [m] on the outcome of [r]. *)
Definition after {X A B} (r : result (store * X) A) (m : A → M X B)
    : result (store * X) B :=
  match r with
  | Ok a s => m a s
  | Raise e s => Raise e s
  | OutOfFuel => OutOfFuel
  | Dangling => Dangling
  end.

(** A peer of which only the id is known. *)
Definition bare_peer (i : string) : peer := mkPeer i None None None None.

(** A tree [r(a(c), b)] of [OK] peers whose root is then set to pending
    through [update_nodes]: the root keeps the grandchild [c] as its child. *)
Definition pending_root_with_child : result (store * BTree) nat :=
  after (build_ok_tree (H:=demo_uuid) 10 "vol-1" (bare_peer "r")
           [bare_peer "a"; bare_peer "b"; bare_peer "c"] empty_store)
    (λ _, update_nodes (H:=demo_uuid) 10 (Some "r") None None None None
                       (Some "pending")).

(** [BtreeExecutor()] in an empty store. *)
Definition fresh_registry : store * BtreeExecutor :=
  (empty_store, BtreeExecutor_init).

(** Scenarios A and B: two host-only calls on a fresh volume. *)
Definition two_pending_peers
    : result (store * BtreeExecutor) (string * list identity_t) :=
  after (get_volume_parents (H:=demo_uuid) 10 (Some "vol-1") None (Some "h1")
           fresh_registry)
    (λ _, get_volume_parents (H:=demo_uuid) 10 (Some "vol-1") None (Some "h2")).

(** The same, with the first peer confirmed in between (scenario D). *)
Definition first_peer_confirmed
    : result (store * BtreeExecutor) (string * list identity_t) :=
  after
    (after (get_volume_parents (H:=demo_uuid) 10 (Some "vol-1") None
              (Some "h1") fresh_registry)
       (λ a, add_volume_metadata (H:=demo_uuid) 10 "vol-1" (Some (fst a))
               (Some "h1") (Some "3260") (Some "iqn.x") (Some "0")))
    (λ _, get_volume_parents (H:=demo_uuid) 10 (Some "vol-1") None (Some "h2")).

(** Two more host-only calls: both land under the confirmed peer. *)
Definition confirmed_peer_with_two_pending_children
    : result (store * BtreeExecutor) (string * list identity_t) :=
  after
    (after first_peer_confirmed
       (λ _, get_volume_parents (H:=demo_uuid) 10 (Some "vol-1") None
               (Some "h3")))
    (λ _, get_volume_parents (H:=demo_uuid) 10 (Some "vol-1") None (Some "h4")).

(** The calls of the registry that write. *)
Inductive registry_call :=
  | CallAddMetadata (vid : string) (pid h p i l : option string)
  | CallDeleteMetadata (vid : string) (pid : option string)
  | CallGetParents (vid pid h : option string).

(** One such call, its result dropped. *)
Definition run_call `{UuidGen} (fuel : nat) (c : registry_call)
    : M BtreeExecutor unit :=
  match c with
  | CallAddMetadata vid pid h p i l =>
      let* _ := add_volume_metadata fuel vid pid h p i l in ret tt
  | CallDeleteMetadata vid pid => delete_volume_metadata fuel vid pid
  | CallGetParents vid pid h =>
      let* _ := get_volume_parents fuel vid pid h in ret tt
  end.


(** One host-only call on a fresh registry (scenario A). *)
Definition one_pending_peer
    : result (store * BtreeExecutor) (string * list identity_t) :=
  get_volume_parents (H:=demo_uuid) 10 (Some "vol-1") None (Some "h1")
                     fresh_registry.

(** Three [OK] peers and a bare one go in; a peer with two children and
    then the sentinel root are removed. *)
Definition sample_ops : list tree_op :=
  [insert_ok_op (bare_peer "a"); insert_ok_op (bare_peer "b");
   insert_ok_op (bare_peer "c"); OpInsertByPeerId "d";
   OpRemoveByPeerId "a"; OpRemoveByPeerId "xxxxx"].

(** * Properties *)

(** ** Running computations *)

Lemma bind_Ok {X A B} (m : M X A) (k : A → M X B) s b s2 :
  bind m k s = Ok b s2 → ∃ a s1, m s = Ok a s1 ∧ k a s1 = Ok b s2.
Proof. unfold bind. destruct (m s); eauto; discriminate. Qed.

Lemma bind_Raise {X A B} (m : M X A) (k : A → M X B) s e s2 :
  bind m k s = Raise e s2 →
  m s = Raise e s2 ∨ ∃ a s1, m s = Ok a s1 ∧ k a s1 = Raise e s2.
Proof.
  unfold bind. destruct (m s); intros E; try discriminate; eauto.
  left. congruence.
Qed.

Lemma bind_run {X A B} (m : M X A) (k : A → M X B) s a s1 :
  m s = Ok a s1 → bind m k s = k a s1.
Proof. unfold bind. by intros ->. Qed.

Lemma read_run {X} l (s : store * X) n :
  heap (fst s) !! l = Some n → read l s = Ok n s.
Proof. unfold read. by intros ->. Qed.

Lemma read_Ok {X} l (s s' : store * X) n :
  read l s = Ok n s' → s' = s ∧ heap (fst s) !! l = Some n.
Proof. unfold read. destruct (heap (fst s) !! l); naive_solver. Qed.

Lemma upd_lookup (h : list BTreeNode) l n m x :
  h !! l = Some m →
  <[l := n]> h !! x = if decide (x = l) then Some n else h !! x.
Proof.
  intros Hl. case_decide as E.
  - subst. apply list_lookup_insert_eq. by eapply lookup_lt_Some.
  - by apply list_lookup_insert_ne.
Qed.

Lemma set_left_run {X} l v (s : store * X) n :
  heap (fst s) !! l = Some n →
  set_left l v s =
    Ok tt (mkStore (<[l := with_left v n]> (heap (fst s))) (uuid_ctr (fst s)),
           snd s).
Proof. intros E. unfold set_left. by rewrite (bind_run _ _ _ _ _ (read_run _ _ _ E)). Qed.

Lemma set_right_run {X} l v (s : store * X) n :
  heap (fst s) !! l = Some n →
  set_right l v s =
    Ok tt (mkStore (<[l := with_right v n]> (heap (fst s))) (uuid_ctr (fst s)),
           snd s).
Proof. intros E. unfold set_right. by rewrite (bind_run _ _ _ _ _ (read_run _ _ _ E)). Qed.

Lemma set_parent_run {X} l v (s : store * X) n :
  heap (fst s) !! l = Some n →
  set_parent l v s =
    Ok tt (mkStore (<[l := with_parent v n]> (heap (fst s))) (uuid_ctr (fst s)),
           snd s).
Proof. intros E. unfold set_parent. by rewrite (bind_run _ _ _ _ _ (read_run _ _ _ E)). Qed.

Lemma bind_put_self {X B} (x : X) (k : unit → M X B) s :
  bind (put_self x) k s = k tt (fst s, x).
Proof. done. Qed.

Lemma bind_get_self {X B} (k : X → M X B) s :
  bind get_self k s = k (snd s) s.
Proof. done. Qed.

Lemma bind_ret {X A B} (a : A) (k : A → M X B) s : bind (ret a) k s = k a s.
Proof. done. Qed.

Lemma bind_assoc {X A B C} (m : M X A) (k1 : A → M X B) (k2 : B → M X C) s :
  bind (bind m k1) k2 s = bind m (λ a, bind (k1 a) k2) s.
Proof. unfold bind. by destruct (m s). Qed.

Lemma bind_gen_uuid `{UuidGen} {X B} (k : string → M X B) s :
  bind gen_uuid k s =
    k (generate_uuid (uuid_ctr (fst s)))
      (mkStore (heap (fst s)) (S (uuid_ctr (fst s))), snd s).
Proof. done. Qed.

Lemma bind_read {X B} l n (k : BTreeNode → M X B) s :
  heap (fst s) !! l = Some n → bind (read l) k s = k n s.
Proof. intros E. by rewrite (bind_run _ _ _ _ _ (read_run _ _ _ E)). Qed.

Lemma bind_set_left {X B} l v n (k : unit → M X B) s :
  heap (fst s) !! l = Some n →
  bind (set_left l v) k s =
    k tt (mkStore (<[l := with_left v n]> (heap (fst s))) (uuid_ctr (fst s)),
          snd s).
Proof. intros E. by rewrite (bind_run _ _ _ _ _ (set_left_run _ _ _ _ E)). Qed.

Lemma bind_set_right {X B} l v n (k : unit → M X B) s :
  heap (fst s) !! l = Some n →
  bind (set_right l v) k s =
    k tt (mkStore (<[l := with_right v n]> (heap (fst s))) (uuid_ctr (fst s)),
          snd s).
Proof. intros E. by rewrite (bind_run _ _ _ _ _ (set_right_run _ _ _ _ E)). Qed.

Lemma bind_set_parent {X B} l v n (k : unit → M X B) s :
  heap (fst s) !! l = Some n →
  bind (set_parent l v) k s =
    k tt (mkStore (<[l := with_parent v n]> (heap (fst s))) (uuid_ctr (fst s)),
          snd s).
Proof. intros E. by rewrite (bind_run _ _ _ _ _ (set_parent_run _ _ _ _ E)). Qed.

(** ** The breadth-first search only reads *)

Lemma bfs_loop_pure {X} fuel : ∀ q (s : store * X),
  match bfs_loop fuel q s with
  | Ok _ s' | Raise _ s' => s' = s
  | _ => True
  end.
Proof.
  induction fuel as [|fuel IH]; intros q s; simpl; [done|].
  destruct q as [|[l|] q]; simpl; try done.
  unfold bind, read. destruct (heap (fst s) !! l) as [n|]; [|done].
  destruct (available n); [done|]. apply IH.
Qed.

Lemma bfs_loop_Ok_None {X} fuel : ∀ q (s s' : store * X),
  bfs_loop fuel q s = Ok None s' → q = [].
Proof.
  induction fuel as [|fuel IH]; intros q s s'; simpl; [done|].
  destruct q as [|[l|] q]; simpl; try done.
  unfold bind, read. destruct (heap (fst s) !! l) as [n|]; [|done].
  destruct (available n); [done|]. intros E. apply IH in E.
  by destruct q.
Qed.

Lemma left_spine_walk_pure {X} fuel : ∀ l (s : store * X),
  match left_spine_walk fuel l s with
  | Ok _ s' | Raise _ s' => s' = s
  | _ => True
  end.
Proof.
  induction fuel as [|fuel IH]; intros l s; simpl; [done|].
  unfold bind, read. destruct (heap (fst s) !! l) as [n|]; [|done].
  destruct (available n); [done|]. destruct (left n); apply IH.
Qed.

(** ** Shapes *)

Lemma root_of_in sh l : root_of sh = Some l → l ∈ locs sh.
Proof. destruct sh; simpl; [done|]. intros [= ->]. set_solver. Qed.

Lemma repr_lookup h : ∀ sh par x,
  repr h par sh → x ∈ locs sh → is_Some (h !! x).
Proof.
  induction sh as [|l a IHa b IHb]; intros par x; simpl; [set_solver|].
  intros (n & Hl & _ & _ & _ & Ha & Hb) Hx.
  rewrite elem_of_cons, elem_of_app in Hx. destruct Hx as [->|[Hx|Hx]]; eauto.
Qed.

Lemma repr_frame h h' : ∀ sh par,
  repr h par sh → (∀ x, x ∈ locs sh → h' !! x = h !! x) → repr h' par sh.
Proof.
  induction sh as [|l a IHa b IHb]; intros par; simpl; [done|].
  intros (n & Hl & Hp & Hlt & Hrt & Ha & Hb) Hfr.
  exists n. rewrite Hfr by set_solver. repeat split; try done.
  - apply IHa; [done|]. intros x Hx. apply Hfr. set_solver.
  - apply IHb; [done|]. intros x Hx. apply Hfr. set_solver.
Qed.

Lemma repr_left_in h : ∀ sh par x n c,
  repr h par sh → x ∈ locs sh → h !! x = Some n → left n = Some c →
  c ∈ locs sh.
Proof.
  induction sh as [|l a IHa b IHb]; intros par x n c; simpl; [set_solver|].
  intros (m & Hl & _ & Hlt & _ & Ha & Hb) Hx Hn Hc.
  rewrite elem_of_cons, elem_of_app in Hx. destruct Hx as [->|[Hx|Hx]].
  - assert (m = n) as -> by congruence.
    rewrite Hc in Hlt. symmetry in Hlt. apply root_of_in in Hlt. set_solver.
  - specialize (IHa _ _ _ _ Ha Hx Hn Hc). set_solver.
  - specialize (IHb _ _ _ _ Hb Hx Hn Hc). set_solver.
Qed.

Lemma repr_right_in h : ∀ sh par x n c,
  repr h par sh → x ∈ locs sh → h !! x = Some n → right n = Some c →
  c ∈ locs sh.
Proof.
  induction sh as [|l a IHa b IHb]; intros par x n c; simpl; [set_solver|].
  intros (m & Hl & _ & _ & Hrt & Ha & Hb) Hx Hn Hc.
  rewrite elem_of_cons, elem_of_app in Hx. destruct Hx as [->|[Hx|Hx]].
  - assert (m = n) as -> by congruence.
    rewrite Hc in Hrt. symmetry in Hrt. apply root_of_in in Hrt. set_solver.
  - specialize (IHa _ _ _ _ Ha Hx Hn Hc). set_solver.
  - specialize (IHb _ _ _ _ Hb Hx Hn Hc). set_solver.
Qed.

Lemma reach_in_locs h par sh l :
  repr h par sh → reach h (root_of sh) l → l ∈ locs sh.
Proof.
  intros Hr. induction 1 as [l E|p n c _ IH Hp Hc|p n c _ IH Hp Hc].
  - by apply root_of_in.
  - eapply repr_left_in; eauto.
  - eapply repr_right_in; eauto.
Qed.

Lemma in_locs_reach h r : ∀ sh par x,
  repr h par sh → x ∈ locs sh →
  (∀ y, root_of sh = Some y → reach h r y) → reach h r x.
Proof.
  induction sh as [|l a IHa b IHb]; intros par x; simpl; [set_solver|].
  intros (n & Hl & _ & Hlt & Hrt & Ha & Hb) Hx Hroot.
  specialize (Hroot l eq_refl).
  rewrite elem_of_cons, elem_of_app in Hx. destruct Hx as [->|[Hx|Hx]].
  - done.
  - eapply IHa; eauto. intros y Hy. eapply reach_left; eauto. congruence.
  - eapply IHb; eauto. intros y Hy. eapply reach_right; eauto. congruence.
Qed.

Lemma repr_parent h : ∀ sh par x,
  repr h par sh → x ∈ locs sh →
  ∃ n, h !! x = Some n ∧
       ((root_of sh = Some x ∧ parent n = par) ∨
        ∃ p pn, parent n = Some p ∧ h !! p = Some pn ∧
                (left pn = Some x ∨ right pn = Some x)).
Proof.
  induction sh as [|l a IHa b IHb]; intros par x; simpl; [set_solver|].
  intros (n & Hl & Hp & Hlt & Hrt & Ha & Hb) Hx.
  rewrite elem_of_cons, elem_of_app in Hx. destruct Hx as [->|[Hx|Hx]].
  - exists n. eauto.
  - destruct (IHa _ _ Ha Hx) as (m & Hm & [[Hroot Hpar]|Hdeep]).
    + exists m. split; [done|]. right. exists l, n. rewrite Hlt. eauto.
    + eauto.
  - destruct (IHb _ _ Hb Hx) as (m & Hm & [[Hroot Hpar]|Hdeep]).
    + exists m. split; [done|]. right. exists l, n. rewrite Hrt. eauto.
    + eauto.
Qed.

Lemma tree_inv_structural h t : tree_inv h t → structural_invariant h t.
Proof.
  intros (sh & Hroot & Hrepr & Hnd & Hnodes & _). repeat split.
  - intros l Hreach Hne. rewrite Hroot in Hreach.
    pose proof (reach_in_locs _ _ _ _ Hrepr Hreach) as Hin.
    destruct (repr_parent _ _ _ _ Hrepr Hin) as (n & Hn & [[E _]|Hdeep]).
    + congruence.
    + destruct Hdeep as (p & pn & ? & ? & ?). exists n, p, pn. eauto.
  - intros r Hr. rewrite Hroot in Hr. destruct sh as [|l a b]; [done|].
    simpl in Hr. injection Hr as ->. destruct Hrepr as (n & ? & ? & _). eauto.
  - intros [l Hl]. apply Hnodes in Hl as (Hin & n & Hn & Hpid).
    exists l, n. split_and!; try done. rewrite Hroot.
    eapply in_locs_reach; eauto. intros y Hy. by apply reach_root.
  - intros (l & n & Hreach & Hn & Hpid). exists l. apply Hnodes.
    rewrite Hroot in Hreach. split; [by eapply reach_in_locs|eauto].
Qed.

(** ** Replacing a subtree *)

Lemma redirect_refl l n : redirect l (Some l) n n.
Proof. unfold redirect. repeat case_decide; naive_solver. Qed.

Lemma subtree_at_locs l : ∀ sh, locs (subtree_at l sh) ⊆ locs sh.
Proof.
  induction sh as [|x a IHa b IHb]; simpl; [done|].
  case_decide; [done|].
  destruct (subtree_at l a) eqn:E; set_solver.
Qed.

Lemma subtree_at_notin l : ∀ sh, l ∉ locs sh → subtree_at l sh = Leaf.
Proof.
  induction sh as [|x a IHa b IHb]; simpl; [done|]. intros Hl.
  case_decide; [set_solver|]. rewrite IHa by set_solver. apply IHb. set_solver.
Qed.

Lemma subtree_at_in l : ∀ sh, l ∈ locs sh →
  ∃ a b, subtree_at l sh = Nd l a b.
Proof.
  induction sh as [|x a IHa b IHb]; simpl; [set_solver|]. intros Hl.
  case_decide as E; [subst; eauto|].
  rewrite elem_of_cons, elem_of_app in Hl. destruct Hl as [?|[Hl|Hl]]; [done| |].
  - destruct (IHa Hl) as (a' & b' & ->). eauto.
  - destruct (subtree_at l a) eqn:Ea; [by apply IHb|].
    destruct (decide (l ∈ locs a)) as [Hin|Hout].
    + destruct (IHa Hin) as (a' & b' & [= -> -> ->]). eauto.
    + by rewrite subtree_at_notin in Ea.
Qed.

Lemma subtree_at_repr h l : ∀ sh par,
  repr h par sh → ∃ par', repr h par' (subtree_at l sh).
Proof.
  induction sh as [|x a IHa b IHb]; intros par Hr; simpl.
  - by exists None.
  - case_decide; [by exists par|].
    destruct Hr as (n & _ & _ & _ & _ & Ha & Hb).
    destruct (subtree_at l a) eqn:E; eauto.
Qed.

Lemma subst_notin l u : ∀ sh, l ∉ locs sh → subst l u sh = sh.
Proof.
  induction sh as [|x a IHa b IHb]; simpl; [done|]. intros Hl.
  case_decide; [set_solver|]. rewrite IHa, IHb by set_solver. done.
Qed.

Lemma root_of_subst l u sh :
  root_of (subst l u sh) =
    if decide (root_of sh = Some l) then root_of u else root_of sh.
Proof.
  destruct sh as [|x a b]; simpl; [done|].
  repeat case_decide; naive_solver.
Qed.

Lemma NoDup_locs_inv x a b :
  NoDup (locs (Nd x a b)) →
  (x ∉ locs a) ∧ (x ∉ locs b) ∧ NoDup (locs a) ∧ NoDup (locs b) ∧
  (∀ y, y ∈ locs a → y ∉ locs b).
Proof.
  simpl. rewrite NoDup_cons, NoDup_app. set_solver.
Qed.

Lemma subtree_at_NoDup l sh : NoDup (locs sh) → NoDup (locs (subtree_at l sh)).
Proof.
  induction sh as [|x a IHa b IHb]; simpl; [done|]. intros Hnd.
  case_decide; [done|].
  apply (NoDup_locs_inv x a b) in Hnd as (_ & _ & Ha & Hb & _).
  destruct (subtree_at l a) eqn:E; auto.
Qed.

Lemma repr_subst h h' l u : ∀ sh par,
  repr h par sh → NoDup (locs sh) →
  (∀ x n, x ∈ locs sh → x ∉ locs (subtree_at l sh) → h !! x = Some n →
          ∃ n', h' !! x = Some n' ∧ redirect l (root_of u) n n') →
  (∀ par', subtree_at l sh ≠ Leaf → repr h par' (subtree_at l sh) →
           repr h' par' u) →
  repr h' par (subst l u sh).
Proof.
  induction sh as [|x a IHa b IHb]; intros par Hr Hnd Hout Hsub; [done|].
  simpl in *. case_decide as E.
  { apply Hsub; [done|]. exact Hr. }
  destruct Hr as (n & Hx & Hp & Hlt & Hrt & Ha & Hb).
  apply (NoDup_locs_inv x a b) in Hnd as (Hxa & Hxb & Hnda & Hndb & Hdisj).
  assert (x ∉ locs (match subtree_at l a with
                    | Leaf => subtree_at l b | s => s end)) as Hxs.
  { pose proof (subtree_at_locs l a). pose proof (subtree_at_locs l b).
    destruct (subtree_at l a); set_solver. }
  destruct (Hout x n) as (n' & Hx' & Hp' & Hlt' & Hrt'); [set_solver|done|done|].
  exists n'. split_and!; try done.
  - congruence.
  - rewrite Hlt', root_of_subst, Hlt. done.
  - rewrite Hrt', root_of_subst, Hrt. done.
  - apply IHa; [done|done| |].
    + intros y m Hy Hys Hm. apply Hout; [set_solver| |done].
      destruct (subtree_at l a) eqn:Ea; [|done].
      pose proof (subtree_at_locs l b). set_solver.
    + intros par' Hne. destruct (subtree_at l a) eqn:Ea; [done|].
      by apply Hsub.
  - apply IHb; [done|done| |].
    + intros y m Hy Hys Hm. apply Hout; [set_solver| |done].
      destruct (subtree_at l a) eqn:Ea; [done|].
      pose proof (subtree_at_locs l a). rewrite Ea in *. set_solver.
    + intros par' Hne. destruct (subtree_at l a) eqn:Ea; [by apply Hsub|].
      destruct (decide (l ∈ locs b)) as [Hin|Hnin].
      * pose proof (subtree_at_locs l a) as Hs. rewrite Ea in Hs.
        destruct (decide (l ∈ locs a)) as [Hia|Hna]; [set_solver|].
        by rewrite subtree_at_notin in Ea.
      * by rewrite subtree_at_notin in Hne.
Qed.

Lemma locs_subst_perm l : ∀ sh,
  NoDup (locs sh) → l ∈ locs sh →
  ∃ rest, locs sh ≡ₚ locs (subtree_at l sh) ++ rest ∧
          ∀ u, locs (subst l u sh) ≡ₚ locs u ++ rest.
Proof.
  induction sh as [|x a IHa b IHb]; intros Hnd Hl; [set_solver|].
  simpl. case_decide as E.
  { exists []. split; [by rewrite app_nil_r|]. intros u. by rewrite app_nil_r. }
  apply (NoDup_locs_inv x a b) in Hnd as (Hxa & Hxb & Hnda & Hndb & Hdisj).
  simpl in Hl. rewrite elem_of_cons, elem_of_app in Hl.
  destruct Hl as [?|[Hl|Hl]]; [done| |].
  - destruct (IHa Hnda Hl) as (rest & Hp1 & Hp2).
    destruct (subtree_at_in l a Hl) as (a' & b' & Ea).
    rewrite Ea in *. exists (x :: rest ++ locs b). split.
    + rewrite Hp1. rewrite <-Permutation_middle.
      by rewrite <-(assoc_L (++)).
    + intros u. rewrite (subst_notin l u b) by set_solver.
      cbn [locs]. rewrite (Hp2 u). rewrite <-Permutation_middle.
      by rewrite <-(assoc_L (++)).
  - destruct (IHb Hndb Hl) as (rest & Hp1 & Hp2).
    rewrite (subtree_at_notin l a) by set_solver.
    exists (x :: locs a ++ rest). split.
    + rewrite Hp1. rewrite <-Permutation_middle.
      apply Permutation_skip. rewrite !(assoc_L (++)).
      apply Permutation_app_tail, Permutation_app_comm.
    + intros u. rewrite (subst_notin l u a) by set_solver.
      cbn [locs]. rewrite (Hp2 u). rewrite <-Permutation_middle.
      apply Permutation_skip. rewrite !(assoc_L (++)).
      apply Permutation_app_tail, Permutation_app_comm.
Qed.

(** ** Hanging a subtree under a node with a free slot *)

Lemma subtree_at_node h l : ∀ sh par a b n,
  repr h par sh → subtree_at l sh = Nd l a b → h !! l = Some n →
  left n = root_of a ∧ right n = root_of b.
Proof.
  intros sh par a b n Hr Es Hn.
  destruct (subtree_at_repr h l sh par Hr) as (par' & Hs).
  rewrite Es in Hs. destruct Hs as (m & Hm & _ & ? & ? & _).
  assert (m = n) as -> by congruence. done.
Qed.

Lemma root_of_None sh : root_of sh = None → sh = Leaf.
Proof. by destruct sh. Qed.

Lemma repr_attach h h' sh par c cn w r :
  repr h par sh → NoDup (locs sh) → c ∈ locs sh → h !! c = Some cn →
  left cn = None ∨ right cn = None →
  repr h' (Some c) w → root_of w = Some r →
  (∀ x, x ∈ locs sh → x ≠ c → h' !! x = h !! x) →
  h' !! c = Some (if bool_decide (is_Some (left cn))
                  then with_right (Some r) cn else with_left (Some r) cn) →
  repr h' par (attach c w sh).
Proof.
  intros Hr Hnd Hc Hcn Hfree Hw Hrw Hfr Hc'.
  destruct (subtree_at_in c sh Hc) as (a & b & Es).
  destruct (subtree_at_node h c sh par a b cn Hr Es Hcn) as [Hlt Hrt].
  pose proof (subtree_at_NoDup c sh Hnd) as Hnds. rewrite Es in Hnds.
  apply NoDup_locs_inv in Hnds as (Hca & Hcb & _).
  pose proof (subtree_at_locs c sh) as Hsub. rewrite Es in Hsub.
  assert (∀ x, x ∈ locs a ++ locs b → h' !! x = h !! x) as Hfr'.
  { intros x Hx. apply Hfr; [set_solver|]. intros ->. set_solver. }
  unfold attach. rewrite Es.
  assert (∀ u, root_of u = Some c →
               (∀ par', repr h par' (Nd c a b) → repr h' par' u) →
               repr h' par (subst c u sh)) as Hgo.
  { intros u Hu Hsubu. apply (repr_subst h h' c u sh par); [done|done| |].
    - intros x n Hx Hxs Hn. exists n. rewrite Hu. split; [|apply redirect_refl].
      rewrite Hfr; [done|done|]. intros ->. rewrite Es in Hxs. set_solver.
    - intros par' _. rewrite Es. apply Hsubu. }
  destruct a as [|la a1 a2].
  - apply Hgo; [done|]. intros par' (m & Hm & Hp & _ & _ & _ & Hb).
    assert (m = cn) as -> by congruence.
    simpl in Hlt. rewrite Hlt in Hc'.
    rewrite bool_decide_eq_false_2 in Hc' by (by intros [? ?]).
    eexists. split; [exact Hc'|]. simpl. split_and!; try done.
    apply (repr_frame h); [done|]. intros x Hx. apply Hfr'. set_solver.
  - assert (b = Leaf) as ->.
    { apply root_of_None. rewrite <-Hrt. destruct Hfree as [E|E]; [|done].
      by rewrite Hlt in E. }
    apply Hgo; [done|]. intros par' (m & Hm & Hp & _ & _ & Ha & _).
    assert (m = cn) as -> by congruence.
    simpl in Hlt. rewrite Hlt in Hc'.
    rewrite bool_decide_eq_true_2 in Hc' by eauto.
    eexists. split; [exact Hc'|]. split_and!; try done.
    apply (repr_frame h); [done|]. intros x Hx. apply Hfr'. set_solver.
Qed.

Lemma attach_locs h sh par c cn w :
  repr h par sh → NoDup (locs sh) → c ∈ locs sh → h !! c = Some cn →
  left cn = None ∨ right cn = None →
  locs (attach c w sh) ≡ₚ locs w ++ locs sh.
Proof.
  intros Hr Hnd Hc Hcn Hfree.
  destruct (subtree_at_in c sh Hc) as (a & b & Es).
  destruct (subtree_at_node h c sh par a b cn Hr Es Hcn) as [Hlt Hrt].
  destruct (locs_subst_perm c sh Hnd Hc) as (rest & Hp1 & Hp2).
  unfold attach. rewrite Es in *. rewrite Hp1.
  destruct a as [|la a1 a2].
  - rewrite Hp2. cbn [locs]. solve_Permutation.
  - assert (b = Leaf) as ->.
    { apply root_of_None. rewrite <-Hrt. destruct Hfree as [E|E]; [|done].
      by rewrite Hlt in E. }
    rewrite Hp2. cbn [locs]. solve_Permutation.
Qed.

Lemma root_of_attach c w sh : root_of (attach c w sh) = root_of sh.
Proof.
  unfold attach. destruct (subtree_at c sh) as [|x [|] b] eqn:E; [done| |];
    rewrite root_of_subst; case_decide; done.
Qed.

(** ** Insertion keeps the tree well formed *)

Lemma bfs_loop_in {X} h sh par :
  repr h par sh →
  ∀ fuel q (s s' : store * X) l,
    heap (fst s) = h →
    Forall (λ o, ∀ x, o = Some x → x ∈ locs sh) q →
    bfs_loop fuel q s = Ok (Some l) s' →
    l ∈ locs sh ∧ ∃ n, h !! l = Some n ∧ available n = true.
Proof.
  intros Hr. induction fuel as [|fuel IH]; intros q s s' l Hh Hq; [done|].
  simpl. destruct q as [|[x|] q]; try done.
  unfold bind, read. rewrite Hh. destruct (h !! x) as [n|] eqn:Hx; [|done].
  apply Forall_cons in Hq as [Hxin Hq]. specialize (Hxin x eq_refl).
  destruct (available n) eqn:Hav.
  - intros [= <- <-]. eauto.
  - apply IH; [done|]. apply Forall_app. split; [done|].
    apply Forall_cons; split; [|apply Forall_singleton]; intros c Hc.
    + eapply repr_left_in; eauto.
    + eapply repr_right_in; eauto.
Qed.

Lemma available_true n :
  available n = true →
  status n = Some "OK" ∧ (left n = None ∨ right n = None).
Proof.
  unfold available. rewrite andb_true_iff, orb_true_iff, !negb_true_iff.
  rewrite bool_decide_eq_true, !bool_decide_eq_false.
  rewrite <-!eq_None_not_Some. done.
Qed.

Lemma insert_by_node_inv fuel nl st tr r s' :
  tree_inv (heap st) tr →
  insert_by_node fuel nl (st, tr) = Ok r s' →
  tree_inv (heap (fst s')) (snd s').
Proof.
  intros (sh & Hroot & Hrepr & Hnd & Hnodes & Hpend).
  destruct nl as [nl|]; [|done]. unfold insert_by_node.
  intros H. apply bind_Ok in H as (nn & s1 & H1 & H).
  apply read_Ok in H1 as [-> Hnl]. simpl in Hnl.
  apply bind_Ok in H as (self & s1 & H1 & H). injection H1 as <- <-.
  simpl in H. case_bool_decide as Hdup; [done|].
  case_bool_decide as Hpar; [done|].
  apply bind_Ok in H as (slot & s1 & H1 & H).
  unfold tree_find_available_slot in H1.
  pose proof (bfs_loop_pure fuel [root tr] (st, tr)) as Hpure.
  rewrite H1 in Hpure. subst s1.
  destruct slot as [sl|]; [|by apply bfs_loop_Ok_None in H1].
  eapply (bfs_loop_in (heap st) sh None) in H1 as (Hsl & sn & Hsn & Hav);
    [|done|done|].
  2:{ apply Forall_singleton. intros x Hx. apply root_of_in. congruence. }
  apply available_true in Hav as [Hok Hfree].
  assert (nl ∉ locs sh) as Hfresh.
  { intros Hin. apply Hdup. exists nl. apply Hnodes. eauto. }
  assert (nl ≠ sl) as Hne by (intros ->; done).
  rewrite bind_put_self in H. cbn [fst snd] in H.
  rewrite (bind_set_left _ _ nn) in H by done. cbn [fst snd heap uuid_ctr] in H.
  rewrite (bind_set_right _ _ (with_left None nn)) in H
    by (cbn [fst heap]; rewrite (upd_lookup _ _ _ nn) by done; by case_decide).
  cbn [fst snd heap uuid_ctr] in H. rewrite list_insert_insert_eq in H.
  rewrite (bind_set_parent _ _ (with_right None (with_left None nn))) in H
    by (cbn [fst heap]; rewrite (upd_lookup _ _ _ nn) by done; by case_decide).
  cbn [fst snd heap uuid_ctr] in H. rewrite list_insert_insert_eq in H.
  rewrite (bind_read _ sn) in H
    by (cbn [fst heap]; rewrite (upd_lookup _ _ _ nn) by done; by case_decide).
  set (nn' := with_parent (Some sl) (with_right None (with_left None nn))) in *.
  set (h1 := <[nl := nn']> (heap st)) in *.
  assert (h1 !! sl = Some sn) as Hsn1
    by (unfold h1; rewrite (upd_lookup _ _ _ nn) by done; by case_decide).
  set (sn' := if bool_decide (is_Some (left sn))
              then with_right (Some nl) sn else with_left (Some nl) sn).
  assert (s' = (mkStore (<[sl := sn']> h1) (uuid_ctr st),
                with_nodes (<[peer_id nn := nl]> (nodes tr)) tr)) as ->.
  { unfold sn'. case_bool_decide.
    - rewrite (bind_set_right _ _ sn) in H by done. by injection H as _ <-.
    - rewrite (bind_set_left _ _ sn) in H by done. by injection H as _ <-. }
  clear H. cbn [fst snd heap].
  set (h2 := <[sl := sn']> h1).
  assert (∀ x, h2 !! x = if decide (x = sl) then Some sn'
                         else if decide (x = nl) then Some nn'
                         else heap st !! x) as Hh2.
  { intros x. unfold h2, h1. rewrite (upd_lookup _ _ _ sn) by done.
    destruct (decide (x = sl)); [done|].
    by rewrite (upd_lookup _ _ _ nn) by done. }
  assert (peer_id sn' = peer_id sn ∧ status sn' = status sn) as [Hpid' Hst'].
  { unfold sn'. by case_bool_decide. }
  pose proof (attach_locs (heap st) sh None sl sn (Nd nl Leaf Leaf)
                Hrepr Hnd Hsl Hsn Hfree) as Hperm.
  exists (attach sl (Nd nl Leaf Leaf) sh). split_and!.
  - by rewrite root_of_attach.
  - apply (repr_attach (heap st) h2 sh None sl sn _ nl); try done.
    + exists nn'. rewrite Hh2. rewrite decide_False, decide_True by done.
      done.
    + intros x Hx Hxs. rewrite Hh2.
      rewrite !decide_False; [done| |done]. by intros ->.
    + rewrite Hh2. by rewrite decide_True.
  - rewrite Hperm. cbn [locs app]. apply NoDup_cons. done.
  - intros pid l. rewrite Hperm. cbn [locs app with_nodes nodes].
    rewrite elem_of_cons, Hh2.
    destruct (decide (l = nl)) as [->|Hlnl].
    + rewrite decide_False by done.
      destruct (decide (pid = peer_id nn)) as [->|Hp].
      * rewrite lookup_insert_eq. naive_solver.
      * rewrite lookup_insert_ne by done. rewrite Hnodes. naive_solver.
    + destruct (decide (pid = peer_id nn)) as [->|Hp].
      * rewrite lookup_insert_eq. split; [naive_solver|].
        intros ([?|Hin] & n & Hn & Hpn); [done|]. exfalso. apply Hdup.
        exists l. apply Hnodes. split; [done|].
        case_decide; [subst; exists sn; split; congruence|eauto].
      * rewrite lookup_insert_ne by done. rewrite Hnodes.
        case_decide; [subst|]; naive_solver.
  - intros l n. rewrite Hperm. cbn [locs app]. rewrite elem_of_cons, Hh2.
    intros Hl Hn Hpd. repeat case_decide; simplify_eq.
    + congruence.
    + done.
    + destruct Hl as [?|Hl]; [done|]. eauto.
Qed.

(** ** Removal keeps the tree well formed *)

Lemma left_spine_walk_in {X} h sh par :
  repr h par sh →
  ∀ fuel x (s s' : store * X) cur,
    heap (fst s) = h → x ∈ locs sh →
    left_spine_walk fuel x s = Ok cur s' →
    cur ∈ locs sh ∧ ∃ cn, h !! cur = Some cn ∧ available cn = true.
Proof.
  intros Hr. induction fuel as [|fuel IH]; intros x s s' cur Hh Hx; [done|].
  simpl. unfold bind, read. rewrite Hh.
  destruct (h !! x) as [n|] eqn:Hn; [|done].
  destruct (available n) eqn:Hav.
  - intros [= <- <-]. eauto.
  - destruct (left n) as [c|] eqn:Hc.
    + apply IH; [done|]. eapply repr_left_in; eauto.
    + by apply IH.
Qed.

Lemma child_parent h : ∀ sh par x n c,
  repr h par sh → x ∈ locs sh → h !! x = Some n →
  left n = Some c ∨ right n = Some c →
  ∃ cn, h !! c = Some cn ∧ parent cn = Some x.
Proof.
  induction sh as [|l a IHa b IHb]; intros par x n c; simpl; [set_solver|].
  intros (m & Hl & _ & Hlt & Hrt & Ha & Hb) Hx Hn Hc.
  rewrite elem_of_cons, elem_of_app in Hx. destruct Hx as [->|[Hx|Hx]]; eauto.
  assert (m = n) as -> by congruence.
  destruct Hc as [Hc|Hc].
  - rewrite Hc in Hlt. destruct a as [|y ? ?]; [done|].
    injection Hlt as ->. destruct Ha as (cn & ? & ? & _). eauto.
  - rewrite Hc in Hrt. destruct b as [|y ? ?]; [done|].
    injection Hrt as ->. destruct Hb as (cn & ? & ? & _). eauto.
Qed.

Lemma parent_outside h t tn : ∀ sh par,
  repr h par sh → NoDup (locs sh) → (∀ q, par = Some q → q ∉ locs sh) →
  t ∈ locs sh → h !! t = Some tn →
  (root_of sh = Some t ∧ parent tn = par) ∨
  ∃ p pn, parent tn = Some p ∧ p ∈ locs sh ∧ p ∉ locs (subtree_at t sh) ∧
          h !! p = Some pn ∧ (left pn = Some t ∨ right pn = Some t).
Proof.
  induction sh as [|x a IHa b IHb]; intros par Hr Hnd Hpar Ht Htn;
    [set_solver|].
  destruct (decide (x = t)) as [->|Hne].
  { left. destruct Hr as (m & Hm & Hp & _). split; [done|]. congruence. }
  right. pose proof Hr as (n & Hx & Hp & Hlt & Hrt & Ha & Hb).
  apply (NoDup_locs_inv x a b) in Hnd as (Hxa & Hxb & Hnda & Hndb & Hdisj).
  cbn [locs] in Ht. rewrite elem_of_cons, elem_of_app in Ht.
  cbn [subtree_at]. rewrite decide_False by done.
  destruct Ht as [?|[Ht|Ht]]; [done| |].
  - destruct (subtree_at_in t a Ht) as (a' & b' & Es).
    destruct (IHa (Some x) Ha Hnda) as [[Hroot Hpt]|Hdeep]; try done.
    { by intros q [= <-]. }
    + exists x, n. rewrite Es. pose proof (subtree_at_locs t a) as Hs.
      rewrite Es in Hs. split_and!; try done; [set_solver|set_solver|].
      left. congruence.
    + destruct Hdeep as (p & pn & ? & ? & ? & ? & ?). exists p, pn.
      rewrite Es in *. split_and!; try done. set_solver.
  - rewrite (subtree_at_notin t a) by set_solver.
    destruct (IHb (Some x) Hb Hndb) as [[Hroot Hpt]|Hdeep]; try done.
    { by intros q [= <-]. }
    + exists x, n. pose proof (subtree_at_locs t b) as Hs.
      split_and!; try done; [set_solver|set_solver|].
      right. congruence.
    + destruct Hdeep as (p & pn & ? & ? & ? & ? & ?). exists p, pn.
      split_and!; try done. set_solver.
Qed.

Lemma repr_reparent h x a b par n v :
  repr h par (Nd x a b) → NoDup (locs (Nd x a b)) → h !! x = Some n →
  repr (<[x := with_parent v n]> h) v (Nd x a b).
Proof.
  intros (m & Hm & Hp & Hlt & Hrt & Ha & Hb) Hnd Hn.
  assert (m = n) as -> by congruence.
  apply NoDup_locs_inv in Hnd as (Hxa & Hxb & _).
  exists (with_parent v n). rewrite (upd_lookup _ _ _ n) by done.
  rewrite decide_True by done. split_and!; try done.
  - apply (repr_frame h); [done|]. intros y Hy.
    rewrite (upd_lookup _ _ _ n) by done. rewrite decide_False; [done|].
    by intros ->.
  - apply (repr_frame h); [done|]. intros y Hy.
    rewrite (upd_lookup _ _ _ n) by done. rewrite decide_False; [done|].
    by intros ->.
Qed.

Lemma node_step_refl n : node_step n n.
Proof. unfold node_step. naive_solver. Qed.

Lemma node_step_trans n1 n2 n3 :
  node_step n1 n2 → node_step n2 n3 → node_step n1 n3.
Proof.
  unfold node_step. intros (? & ? & H12) (? & ? & H23).
  split_and!; [congruence|congruence|].
  destruct H12 as [[El Er]|H12]; [|by right].
  destruct H23 as [[El' Er']|H23]; [left; split; congruence|].
  right. rewrite <-El, <-Er. destruct H23 as [?|?]; [left; congruence|by right].
Qed.

Lemma heap_step_refl h : heap_step h h.
Proof. intros x n Hn. exists n. split; [done|apply node_step_refl]. Qed.

Lemma heap_step_trans h1 h2 h3 :
  heap_step h1 h2 → heap_step h2 h3 → heap_step h1 h3.
Proof.
  intros H12 H23 x n Hn. destruct (H12 x n Hn) as (n2 & Hn2 & Hs2).
  destruct (H23 x n2 Hn2) as (n3 & Hn3 & Hs3).
  exists n3. split; [done|]. by eapply node_step_trans.
Qed.

Lemma heap_step_upd h x n n' :
  h !! x = Some n → node_step n n' → heap_step h (<[x := n']> h).
Proof.
  intros Hx Hs y m Hy. rewrite (upd_lookup _ _ _ n) by done.
  case_decide as E.
  - subst. exists n'. split; [done|]. congruence.
  - exists m. split; [done|apply node_step_refl].
Qed.

Lemma replacement_spec fuel t st tr a b tn up s2 :
  heap st !! t = Some tn →
  repr (heap st) (parent tn) (Nd t a b) → NoDup (locs (Nd t a b)) →
  replacement fuel t (st, tr) = Ok up s2 →
  ∃ U h2, s2 = (mkStore h2 (uuid_ctr st), tr) ∧ up = root_of U ∧
          repr h2 (Some t) U ∧ locs U ≡ₚ locs a ++ locs b ∧
          (∀ x, x ∉ locs a ++ locs b → h2 !! x = heap st !! x) ∧
          heap_step (heap st) h2.
Proof.
  intros Ht (m & Hm & _ & Hlt & Hrt & Ha & Hb) Hnd.
  assert (m = tn) as -> by congruence. clear Hm.
  apply NoDup_locs_inv in Hnd as (Hta & Htb & Hnda & Hndb & Hdisj).
  unfold replacement. rewrite (bind_read _ tn) by done.
  assert (st = mkStore (heap st) (uuid_ctr st)) as Est by (by destruct st).
  destruct a as [|l a1 a2], b as [|r b1 b2]; simpl in Hlt, Hrt;
    rewrite Hlt, Hrt.
  - intros [= <- <-]. exists Leaf, (heap st). rewrite <-Est.
    split_and!; try done. apply heap_step_refl.
  - intros [= <- <-]. exists (Nd r b1 b2), (heap st). rewrite <-Est.
    split_and!; try done. apply heap_step_refl.
  - intros [= <- <-]. exists (Nd l a1 a2), (heap st). rewrite <-Est.
    split_and!; try done; [by rewrite app_nil_r|apply heap_step_refl].
  - intros H. apply bind_Ok in H as (cur & s1 & Hw & H).
    pose proof (left_spine_walk_pure fuel t (st, tr)) as Hpure.
    rewrite Hw in Hpure. subst s1.
    assert (cur ∈ locs (Nd l a1 a2) ∧
            ∃ cn, heap st !! cur = Some cn ∧ available cn = true)
      as (Hcur & cn & Hcn & Hav).
    { destruct fuel as [|fuel]; [done|]. simpl in Hw.
      rewrite (bind_read _ tn) in Hw by done.
      assert (available tn = false) as Hna.
      { unfold available. rewrite Hlt, Hrt.
        rewrite !(bool_decide_eq_true_2 (is_Some _)) by eauto.
        by rewrite andb_false_r. }
      rewrite Hna, Hlt in Hw.
      apply (left_spine_walk_in (heap st) _ _ Ha fuel l (st, tr) (st, tr));
        [done|set_solver|exact Hw]. }
    apply available_true in Hav as [Hok Hfree].
    pose proof Hb as (rn & Hr & Hrp & _).
    assert (cur ≠ r) as Hcr.
    { intros ->. apply (Hdisj r); set_solver. }
    rewrite (bind_set_parent _ _ rn) in H by done.
    cbn [fst snd heap uuid_ctr] in H.
    set (h1 := <[r := with_parent (Some cur) rn]> (heap st)) in *.
    assert (h1 !! cur = Some cn) as Hcn1.
    { unfold h1. rewrite (upd_lookup _ _ _ rn) by done.
      by rewrite decide_False. }
    rewrite (bind_read _ cn) in H by done.
    set (cn' := if bool_decide (is_Some (left cn))
                then with_right (Some r) cn else with_left (Some r) cn).
    assert (s2 = (mkStore (<[cur := cn']> h1) (uuid_ctr st), tr) ∧
            up = Some l) as [-> ->].
    { unfold cn'. case_bool_decide.
      - rewrite (bind_set_right _ _ cn) in H by done. by injection H as <- <-.
      - rewrite (bind_set_left _ _ cn) in H by done. by injection H as <- <-. }
    clear H. set (h2 := <[cur := cn']> h1).
    assert (∀ x, h2 !! x = if decide (x = cur) then Some cn'
                           else if decide (x = r)
                                then Some (with_parent (Some cur) rn)
                                else heap st !! x) as Hh2.
    { intros x. unfold h2, h1. rewrite (upd_lookup _ _ _ cn) by done.
      destruct (decide (x = cur)); [done|].
      by rewrite (upd_lookup _ _ _ rn) by done. }
    exists (attach cur (Nd r b1 b2) (Nd l a1 a2)), h2. split_and!.
    + done.
    + by rewrite root_of_attach.
    + apply (repr_attach (heap st) h2 _ (Some t) cur cn _ r); try done.
      * apply (repr_frame h1).
        -- unfold h1. by eapply repr_reparent.
        -- intros x Hx. unfold h2. rewrite (upd_lookup _ _ _ cn) by done.
           rewrite decide_False; [done|]. intros ->. by apply (Hdisj cur).
      * intros x Hx Hxc. rewrite Hh2. rewrite !decide_False; try done.
        intros ->. apply (Hdisj r); set_solver.
      * rewrite Hh2. by rewrite decide_True.
    + rewrite (attach_locs (heap st) _ (Some t) cur cn); try done.
      apply Permutation_app_comm.
    + intros x Hx. rewrite Hh2. rewrite !decide_False; try done.
      * intros ->. set_solver.
      * intros ->. set_solver.
    + apply (heap_step_trans _ h1).
      * apply (heap_step_upd _ _ rn); [done|]. unfold node_step. naive_solver.
      * apply (heap_step_upd _ _ cn); [done|]. unfold node_step, cn'.
        case_bool_decide; naive_solver.
Qed.

Lemma root_update_run t up (s : store * BTree) :
  (let* self := get_self in
   if bool_decide (Some t = root self)
   then put_self (with_root up self) else ret tt) s =
  Ok tt (fst s, if bool_decide (Some t = root (snd s))
                then with_root up (snd s) else snd s).
Proof. rewrite bind_get_self. destruct s. by case_bool_decide. Qed.

Lemma relink_spec t up h2 ctr tr tn :
  h2 !! t = Some tn →
  (∀ u, up = Some u → u ≠ t ∧ is_Some (h2 !! u)) →
  (∀ p, parent tn = Some p → p ≠ t ∧ up ≠ Some p ∧ is_Some (h2 !! p)) →
  ∃ h4,
    relink t up (mkStore h2 ctr, tr) =
      Ok tt (mkStore h4 ctr,
             if bool_decide (Some t = root tr) then with_root up tr else tr) ∧
    ∀ x, h4 !! x =
           if decide (parent tn = Some x) then
             (λ pn, if bool_decide (left pn = Some t)
                    then with_left up pn else with_right up pn) <$> h2 !! x
           else if decide (up = Some x) then
             with_parent (parent tn) <$> h2 !! x
           else h2 !! x.
Proof.
  intros Ht Hup Hpar. unfold relink.
  set (h3 := match up with
             | Some u => match h2 !! u with
                         | Some un => <[u := with_parent (parent tn) un]> h2
                         | None => h2
                         end
             | None => h2
             end).
  assert (∀ x, h3 !! x = if decide (up = Some x)
                         then with_parent (parent tn) <$> h2 !! x
                         else h2 !! x) as Hh3.
  { intros x. unfold h3. destruct up as [u|]; [|done].
    destruct (Hup u eq_refl) as [_ [un Hun]]. rewrite Hun.
    rewrite (upd_lookup _ _ _ un) by done.
    destruct (decide (x = u)) as [->|Hne].
    - rewrite decide_True by done. by rewrite Hun.
    - rewrite decide_False; [done|]. by intros [= ->]. }
  assert (h3 !! t = Some tn) as Ht3.
  { rewrite Hh3. rewrite decide_False; [done|]. intros E.
    by destruct (Hup t E). }
  assert (∀ k : unit → M BTree unit,
            bind (match up with
                  | Some u => let* tn := read t in set_parent u (parent tn)
                  | None => ret tt
                  end) k (mkStore h2 ctr, tr) = k tt (mkStore h3 ctr, tr))
    as Hstep1.
  { intros k. unfold h3. destruct up as [u|]; [|done].
    destruct (Hup u eq_refl) as [_ [un Hun]]. rewrite Hun.
    unfold bind at 1. rewrite (bind_read _ tn) by done.
    by rewrite (set_parent_run _ _ _ un) by done. }
  rewrite Hstep1. rewrite (bind_read _ tn) by done.
  destruct (parent tn) as [p|] eqn:Hp.
  - destruct (Hpar p eq_refl) as (Hpt & Hpu & [pn Hpn]).
    assert (h3 !! p = Some pn) as Hpn3.
    { rewrite Hh3. by rewrite decide_False. }
    set (pn' := if bool_decide (left pn = Some t)
                then with_left up pn else with_right up pn).
    exists (<[p := pn']> h3). split.
    + unfold bind at 1. rewrite (bind_read _ pn) by done. unfold pn'.
      case_bool_decide.
      * rewrite (set_left_run _ _ _ pn) by done. by rewrite root_update_run.
      * rewrite (set_right_run _ _ _ pn) by done. by rewrite root_update_run.
    + intros x. rewrite (upd_lookup _ _ _ pn) by done.
      destruct (decide (x = p)) as [->|Hne].
      * rewrite decide_True by done. by rewrite Hpn.
      * rewrite decide_False; [apply Hh3|]. by intros [= ->].
  - exists h3. split; [|intros x; by rewrite decide_False].
    rewrite bind_ret. by rewrite root_update_run.
Qed.

Lemma left_right_distinct h sh par x n c :
  repr h par sh → NoDup (locs sh) → x ∈ locs sh → h !! x = Some n →
  left n = Some c → right n ≠ Some c.
Proof.
  intros Hr Hnd Hx Hn Hl Hrt.
  destruct (subtree_at_in x sh Hx) as (a & b & Es).
  destruct (subtree_at_node h x sh par a b n Hr Es Hn) as [Ea Eb].
  pose proof (subtree_at_NoDup x sh Hnd) as Hnds. rewrite Es in Hnds.
  apply NoDup_locs_inv in Hnds as (_ & _ & _ & _ & Hdisj).
  apply (Hdisj c); apply root_of_in; congruence.
Qed.

Lemma redirect_same l v n :
  left n ≠ Some l → right n ≠ Some l → redirect l v n n.
Proof. intros ? ?. unfold redirect. by rewrite !decide_False. Qed.

Lemma tree_remove_shape fuel t st tr sh r s' :
  root tr = root_of sh → repr (heap st) None sh → NoDup (locs sh) →
  (∀ l n, l ∈ locs sh → heap st !! l = Some n →
          status n = Some "pending" → left n = None ∧ right n = None) →
  t ∈ locs sh →
  tree_remove_by_node fuel (Some t) (st, tr) = Ok r s' →
  ∃ sh', root (snd s') = root_of sh' ∧ repr (heap (fst s')) None sh' ∧
         locs sh ≡ₚ t :: locs sh' ∧ nodes (snd s') = nodes tr ∧
         heap_step (heap st) (heap (fst s')) ∧ r = t.
Proof.
  intros Hroot Hrepr Hnd Hpend Ht H.
  destruct fuel as [|fuel]; [done|]. cbn [tree_remove_by_node] in H.
  destruct (repr_lookup _ _ _ _ Hrepr Ht) as [tn Htn].
  rewrite (bind_read _ tn) in H by done.
  apply bind_Ok in H as ([] & s1 & Hcas & H).
  assert (s1 = (st, tr)) as ->.
  { case_bool_decide as Hp; [|by injection Hcas].
    destruct (Hpend t tn Ht Htn Hp) as [El Er]. rewrite El in Hcas.
    rewrite bind_ret, (bind_read _ tn) in Hcas by done. rewrite Er in Hcas.
    by injection Hcas. }
  clear Hcas.
  apply bind_Ok in H as (up & s2 & Hrep & H).
  destruct (subtree_at_in t sh Ht) as (a & b & Es).
  pose proof (subtree_at_NoDup t sh Hnd) as Hnds. rewrite Es in Hnds.
  destruct (subtree_at_repr (heap st) t sh None Hrepr) as (par' & Hsub).
  rewrite Es in Hsub.
  assert (par' = parent tn) as ->.
  { destruct Hsub as (m & Hm & Hp & _). congruence. }
  destruct (replacement_spec _ _ _ _ _ _ _ _ _ Htn Hsub Hnds Hrep)
    as (U & h2 & -> & -> & HU & HUperm & Hfr2 & Hstep2).
  pose proof (subtree_at_locs t sh) as Hsubset. rewrite Es in Hsubset.
  pose proof Hnds as Hnds'.
  apply NoDup_locs_inv in Hnds' as (Hta & Htb & Hnda & Hndb & Hdisj).
  assert (NoDup (locs U)) as HndU.
  { rewrite HUperm. apply NoDup_app. split_and!; try done. }
  assert (∀ x, x ∈ locs U ↔ x ∈ locs a ∨ x ∈ locs b) as HUin.
  { intros x. rewrite HUperm. apply elem_of_app. }
  assert (h2 !! t = Some tn) as Htn2.
  { rewrite Hfr2; [done|]. rewrite elem_of_app. naive_solver. }
  assert (∀ p, parent tn = Some p →
               p ∈ locs sh ∧ p ∉ locs (Nd t a b) ∧
               ∃ pn, heap st !! p = Some pn ∧
                     (left pn = Some t ∨ right pn = Some t)) as HparF.
  { intros p Hp.
    destruct (parent_outside (heap st) t tn sh None Hrepr Hnd)
      as [[_ Hpt]|(p' & pn & Hpt & Hpin & Hpout & Hpn & Hpc)];
      [done|done|done|congruence|].
    rewrite Es in Hpout. assert (p' = p) as -> by congruence. eauto. }
  assert (∀ x n, x ∈ locs sh → heap st !! x = Some n →
                 left n = Some t ∨ right n = Some t → parent tn = Some x)
    as Hnochild.
  { intros x n Hx Hn Hc.
    destruct (child_parent _ _ _ _ _ _ Hrepr Hx Hn Hc) as (cn & Hcn & Hcp).
    congruence. }
  destruct (relink_spec t (root_of U) h2 (uuid_ctr st) tr tn Htn2)
    as (h4 & Hrl & Hh4).
  { intros u Hu. apply root_of_in in Hu. split.
    - intros ->. apply HUin in Hu. naive_solver.
    - by eapply repr_lookup. }
  { intros p Hp. destruct (HparF p Hp) as (Hpin & Hpout & pn & Hpn & _).
    split_and!.
    - intros ->. set_solver.
    - intros Hu. apply root_of_in, HUin in Hu. set_solver.
    - rewrite Hfr2; [eauto|]. set_solver. }
  rewrite (bind_run _ _ _ _ _ Hrl) in H. injection H as <- <-.
  cbn [fst snd heap].
  exists (subst t U sh). split_and!.
  - rewrite root_of_subst, <-Hroot.
    case_bool_decide as E; [by rewrite decide_True|].
    by rewrite decide_False.
  - apply (repr_subst (heap st) h4 t U sh None); [done|done| |].
    + rewrite Es. intros x n Hx Hxs Hn.
      assert (h2 !! x = Some n) as Hn2.
      { rewrite Hfr2; [done|]. set_solver. }
      rewrite Hh4, Hn2. destruct (decide (parent tn = Some x)) as [Hp|Hp].
      * destruct (HparF x Hp) as (_ & _ & pn & Hpn & Hpc).
        assert (pn = n) as -> by congruence.
        eexists. split; [done|]. unfold redirect.
        destruct (decide (left n = Some t)) as [Hl|Hl].
        -- rewrite bool_decide_eq_true_2 by done. cbn.
           rewrite decide_False; [done|].
           exact (left_right_distinct _ _ _ _ _ _ Hrepr Hnd Hx Hn Hl).
        -- rewrite bool_decide_eq_false_2 by done. cbn.
           destruct Hpc as [?|Hrc]; [done|].
           by rewrite decide_True.
      * rewrite decide_False.
        2:{ intros Hu. apply root_of_in, HUin in Hu. set_solver. }
        exists n. split; [done|]. apply redirect_same; naive_solver.
    + rewrite Es. intros par' _ (m & Hm & Hmp & _).
      assert (par' = parent tn) as -> by congruence.
      destruct U as [|u u1 u2]; [done|].
      destruct HU as (un & Hun & HU').
      apply (repr_frame (<[u := with_parent (parent tn) un]> h2)).
      { eapply repr_reparent; [|done|done]. exists un. eauto. }
      intros x Hx. rewrite Hh4. rewrite decide_False.
      2:{ intros Hp. destruct (HparF x Hp) as (_ & Hout & _).
          apply HUin in Hx. set_solver. }
      rewrite (upd_lookup _ _ _ un) by done. cbn [root_of].
      destruct (decide (x = u)) as [->|Hne].
      * rewrite decide_True by done. by rewrite Hun.
      * rewrite decide_False; [done|]. by intros [= ->].
  - destruct (locs_subst_perm t sh Hnd Ht) as (rest & Hp1 & Hp2).
    rewrite Hp1, (Hp2 U), Es, HUperm. cbn [locs]. solve_Permutation.
  - by case_bool_decide.
  - apply (heap_step_trans _ h2); [done|].
    intros x n2 Hn2. rewrite Hh4, Hn2.
    destruct (decide (parent tn = Some x)) as [Hp|Hp].
    + destruct (HparF x Hp) as (_ & Hout & pn & Hpn & Hpc).
      assert (pn = n2) as ->.
      { rewrite Hfr2 in Hn2; [congruence|]. set_solver. }
      eexists. split; [done|]. unfold node_step.
      destruct (bool_decide (left n2 = Some t)); cbn; split_and!; try done;
        right; right; naive_solver.
    + destruct (decide (root_of U = Some x)); cbn; eexists;
        (split; [done|]); unfold node_step; naive_solver.
  - done.
Qed.

Lemma remove_by_peer_id_inv fuel pid st tr r s' :
  tree_inv (heap st) tr →
  remove_by_peer_id fuel pid (st, tr) = Ok r s' →
  tree_inv (heap (fst s')) (snd s').
Proof.
  intros (sh & Hroot & Hrepr & Hnd & Hnodes & Hpend) H.
  unfold remove_by_peer_id in H. rewrite bind_get_self in H. cbn [snd] in H.
  destruct (nodes tr !! pid) as [t|] eqn:Hpid; [|done].
  apply Hnodes in Hpid as Htin. destruct Htin as (Ht & tn & Htn & Htpid).
  apply bind_Ok in H as (t' & [st1 tr1] & Hrm & H).
  destruct (tree_remove_shape _ _ _ _ _ _ _ Hroot Hrepr Hnd Hpend Ht Hrm)
    as (sh' & Hroot' & Hrepr' & Hperm & Hnodes' & Hstep & ->).
  cbn [fst snd] in *. rewrite bind_get_self, bind_put_self in H.
  injection H as <- <-. cbn [fst snd with_nodes root nodes].
  rewrite Hperm in Hnd. apply NoDup_cons in Hnd as [Htout Hnd'].
  assert (∀ x, x ∈ locs sh ↔ x = t ∨ x ∈ locs sh') as Hin.
  { intros x. by rewrite Hperm, elem_of_cons. }
  assert (∀ x n', x ∈ locs sh' → heap st1 !! x = Some n' →
                  ∃ n, heap st !! x = Some n ∧ node_step n n') as Hback.
  { intros x n' Hx Hn'. destruct (repr_lookup _ _ _ x Hrepr) as [n Hn].
    { apply Hin. by right. }
    destruct (Hstep x n Hn) as (n'' & Hn'' & Hs). exists n.
    split; [done|]. congruence. }
  exists sh'. split_and!; try done.
  - intros q l. cbn [with_nodes nodes]. rewrite Hnodes'. split.
    + intros Hl. apply lookup_delete_Some in Hl as [Hq Hl].
      apply Hnodes in Hl as (Hlin & n & Hn & Hnq).
      apply Hin in Hlin as [->|Hlin]; [congruence|]. split; [done|].
      destruct (Hstep l n Hn) as (n' & Hn' & Hpid' & _). exists n'.
      split; [done|]. congruence.
    + intros (Hlin & n' & Hn' & Hq).
      destruct (Hback l n' Hlin Hn') as (n & Hn & Hpid' & _).
      assert (nodes tr !! q = Some l) as Hl.
      { apply Hnodes. split; [apply Hin; by right|]. exists n.
        split; [done|]. congruence. }
      apply lookup_delete_Some. split; [|done]. intros ->.
      assert (l = t) as -> by congruence. done.
  - intros l n' Hlin Hn' Hpd.
    destruct (Hback l n' Hlin Hn') as (n & Hn & _ & Hst & Hlinks).
    rewrite Hst in Hpd.
    destruct (Hpend l n) as [El Er]; [apply Hin; by right|done|done|].
    destruct Hlinks as [[-> ->]|[Hok|[[? Hc]|[? Hc]]]]; [done| | |];
      congruence.
Qed.

(** ** Creating nodes and trees *)

Lemma new_BTreeNode_Ok `{UuidGen} {X} pid h p i l lt rt pt s fr
    (s0 s1 : store * X) x :
  new_BTreeNode pid h p i l lt rt pt s fr s0 = Ok x s1 →
  ∃ pid', x = length (heap (fst s0)) ∧
          heap (fst s1) = heap (fst s0) ++ [mkNode pid' h p i l lt rt pt s fr] ∧
          snd s1 = snd s0 ∧
          (truthy pid = true → pid = Some pid').
Proof.
  unfold new_BTreeNode. intros Hn. apply bind_Ok in Hn as (pid' & s' & Hp & Hn).
  unfold alloc in Hn. injection Hn as <- <-. exists pid'.
  destruct (truthy pid) eqn:Ht.
  - injection Hp as <- <-. split_and!; try done. intros _.
    destruct pid; [done|discriminate].
  - unfold gen_uuid in Hp. injection Hp as <- <-. done.
Qed.

Lemma tree_inv_alloc h t n : tree_inv h t → tree_inv (h ++ [n]) t.
Proof.
  intros (sh & Hroot & Hrepr & Hnd & Hnodes & Hpend).
  assert (∀ x, x ∈ locs sh → (h ++ [n]) !! x = h !! x) as Hfr.
  { intros x Hx. apply lookup_app_l, lookup_lt_is_Some.
    by eapply repr_lookup. }
  exists sh. split_and!; try done.
  - by apply (repr_frame h).
  - intros pid l. rewrite Hnodes. split; intros [Hl Hn]; (split; [done|]).
    + by rewrite Hfr.
    + by rewrite Hfr in Hn.
  - intros l m Hl Hm. rewrite Hfr in Hm by done. eauto.
Qed.

Lemma BTree_init_inv `{UuidGen} {X} vid r (s0 s1 : store * X) t :
  BTree_init vid r s0 = Ok t s1 →
  tree_inv (heap (fst s1)) t ∧ snd s1 = snd s0.
Proof.
  unfold BTree_init. intros Hi.
  apply bind_Ok in Hi as (x & s & Hx & Hi).
  assert (snd s = snd s0) as Hsnd.
  { destruct r as [r|]; [by injection Hx as <- <-|].
    apply bind_Ok in Hx as (? & ? & [= <- <-] & Hx).
    apply bind_Ok in Hx as (? & ? & [= <- <-] & Hx).
    apply bind_Ok in Hx as (? & ? & [= <- <-] & Hx).
    apply bind_Ok in Hx as (? & ? & [= <- <-] & Hx).
    apply new_BTreeNode_Ok in Hx as (? & _ & _ & Hx & _). done. }
  clear Hx. destruct (heap (fst s) !! x) as [n|] eqn:Hn.
  2:{ unfold set_left in Hi. apply bind_Ok in Hi as (? & ? & Hi & _).
      apply bind_Ok in Hi as (? & ? & Hi & _). apply read_Ok in Hi as [_ Hi].
      congruence. }
  rewrite (bind_set_left _ _ n) in Hi by done.
  cbn [fst snd heap uuid_ctr] in Hi.
  rewrite (bind_set_right _ _ (with_left None n)) in Hi
    by (cbn [fst heap]; rewrite (upd_lookup _ _ _ n) by done;
        by rewrite decide_True).
  cbn [fst snd heap uuid_ctr] in Hi. rewrite list_insert_insert_eq in Hi.
  rewrite (bind_set_parent _ _ (with_right None (with_left None n))) in Hi
    by (cbn [fst heap]; rewrite (upd_lookup _ _ _ n) by done;
        by rewrite decide_True).
  cbn [fst snd heap uuid_ctr] in Hi. rewrite list_insert_insert_eq in Hi.
  set (n' := with_parent None (with_right None (with_left None n))) in *.
  assert (<[x := n']> (heap (fst s)) !! x = Some n') as Hx'.
  { rewrite (upd_lookup _ _ _ n) by done. by rewrite decide_True. }
  rewrite (bind_read _ n') in Hi by done. injection Hi as <- <-.
  split; [|done]. cbn [fst heap].
  exists (Nd x Leaf Leaf). split_and!; try done.
  - exists n'. done.
  - apply NoDup_singleton.
  - intros pid l. cbn [nodes locs app]. rewrite list_elem_of_singleton.
    rewrite lookup_singleton_Some. split.
    + intros [<- <-]. eauto.
    + intros (-> & m & Hm & <-). rewrite Hx' in Hm. by injection Hm as <-.
  - intros l m. cbn [locs app]. rewrite list_elem_of_singleton.
    intros -> Hm. assert (m = n') as -> by congruence. done.
Qed.

(** ** Sequences of operations *)

Lemma run_op_inv `{UuidGen} fuel o st tr u s' :
  tree_inv (heap st) tr →
  run_op fuel o (st, tr) = Ok u s' →
  tree_inv (heap (fst s')) (snd s').
Proof.
  intros Hinv Hrun. destruct o; cbn [run_op] in Hrun;
    apply bind_Ok in Hrun as (x & [st1 tr1] & Hop & [= _ <-]);
    cbn [fst snd].
  - apply new_BTreeNode_Ok in Hop as (pid' & _ & Hh & Ht & _).
    cbn [fst snd] in *. subst tr1. rewrite Hh. by apply tree_inv_alloc.
  - by apply (insert_by_node_inv _ _ _ _ _ _ Hinv) in Hop.
  - unfold insert_new_node in Hop.
    apply bind_Ok in Hop as (n & [st2 tr2] & Hnew & Hop).
    apply new_BTreeNode_Ok in Hnew as (pid' & _ & Hh & Ht & _).
    cbn [fst snd] in *. subst tr2.
    apply (insert_by_node_inv _ _ _ _ _ _) in Hop; [done|].
    rewrite Hh. by apply tree_inv_alloc.
  - unfold insert_by_peer_id in Hop. rewrite bind_get_self in Hop.
    case_bool_decide; [done|].
    apply bind_Ok in Hop as (n & [st2 tr2] & Hnew & Hop).
    apply new_BTreeNode_Ok in Hnew as (pid' & _ & Hh & Ht & _).
    cbn [fst snd] in *. subst tr2.
    apply (insert_by_node_inv _ _ _ _ _ _) in Hop; [done|].
    rewrite Hh. by apply tree_inv_alloc.
  - by apply (remove_by_peer_id_inv _ _ _ _ _ _ Hinv) in Hop.
Qed.

Lemma run_ops_inv `{UuidGen} fuel : ∀ os st tr u s',
  tree_inv (heap st) tr →
  run_ops fuel os (st, tr) = Ok u s' →
  tree_inv (heap (fst s')) (snd s').
Proof.
  induction os as [|o os IH]; intros st tr u s' Hinv Hrun.
  - by injection Hrun as _ <-.
  - cbn [run_ops] in Hrun. apply bind_Ok in Hrun as (x & [st1 tr1] & Hop & Hrun).
    apply (run_op_inv _ _ _ _ _ _ Hinv) in Hop. eauto.
Qed.

(** C1.  Take a tree as [BTree(volume_id, root)] makes it, with the
    sentinel root or with a node of the caller, and any sequence of node
    constructions, [insert_by_node], [insert_by_peer_id] and
    [remove_by_peer_id] calls that all return.  Afterwards every node
    reachable from the root except the root has a parent whose [left] or
    [right] is that node, the root has no parent, and the keys of [nodes]
    are exactly the peer ids of the reachable nodes. *)
Theorem tree_ops_keep_structural_invariant `{UuidGen} fuel vid r os st u s' :
  fresh_tree_then vid r (run_ops fuel os) st = Ok u s' →
  structural_invariant (heap (fst s')) (snd s').
Proof.
  unfold fresh_tree_then. intros Hrun.
  destruct (BTree_init vid r (st, ())) as [t s| | |] eqn:Hinit; try done.
  apply BTree_init_inv in Hinit as [Hinv _].
  apply tree_inv_structural. destruct s as [st1 []].
  by eapply run_ops_inv.
Qed.

(** ** Inserting [OK] nodes fills the levels in order *)

Lemma insert_by_node_run fuel nl st tr nn sl sn :
  heap st !! nl = Some nn → nodes tr !! peer_id nn = None →
  parent nn = None →
  tree_find_available_slot fuel (root tr) (st, tr) = Ok (Some sl) (st, tr) →
  heap st !! sl = Some sn → nl ≠ sl →
  insert_by_node fuel (Some nl) (st, tr) =
    Ok (Some sl)
       (mkStore (<[sl := if bool_decide (is_Some (left sn))
                         then with_right (Some nl) sn
                         else with_left (Some nl) sn]>
                   (<[nl := with_parent (Some sl)
                              (with_right None (with_left None nn))]>
                      (heap st)))
                (uuid_ctr st),
        with_nodes (<[peer_id nn := nl]> (nodes tr)) tr).
Proof.
  intros Hnl Hfresh Hpar Hbfs Hsl Hne. unfold insert_by_node.
  rewrite (bind_read _ nn) by done. rewrite bind_get_self. cbn [snd].
  rewrite bool_decide_eq_false_2 by (rewrite Hfresh; by intros [? ?]).
  rewrite bool_decide_eq_false_2 by (rewrite Hpar; by intros [? ?]).
  rewrite (bind_run _ _ _ _ _ Hbfs). rewrite bind_put_self. cbn [fst snd].
  rewrite (bind_set_left _ _ nn) by done. cbn [fst snd heap uuid_ctr].
  rewrite (bind_set_right _ _ (with_left None nn))
    by (cbn [fst heap]; rewrite (upd_lookup _ _ _ nn) by done;
        by rewrite decide_True).
  cbn [fst snd heap uuid_ctr]. rewrite list_insert_insert_eq.
  rewrite (bind_set_parent _ _ (with_right None (with_left None nn)))
    by (cbn [fst heap]; rewrite (upd_lookup _ _ _ nn) by done;
        by rewrite decide_True).
  cbn [fst snd heap uuid_ctr]. rewrite list_insert_insert_eq.
  assert (<[nl := with_parent (Some sl) (with_right None (with_left None nn))]>
            (heap st) !! sl = Some sn) as Hsl'.
  { rewrite (upd_lookup _ _ _ nn) by done. by rewrite decide_False. }
  rewrite (bind_read _ sn) by done.
  case_bool_decide.
  - by rewrite (bind_set_right _ _ sn) by done.
  - by rewrite (bind_set_left _ _ sn) by done.
Qed.

Lemma at_pos_frame h h' r :
  (∀ i l, at_pos h r i = Some l → h' !! l = h !! l) →
  ∀ i, at_pos h' r i = at_pos h r i.
Proof.
  intros Hfr. induction i as [i IH|i IH|]; cbn [at_pos]; [| |done].
  - rewrite IH. destruct (at_pos h r i) as [l|] eqn:E; [|done]. cbn.
    by rewrite (Hfr i l).
  - rewrite IH. destruct (at_pos h r i) as [l|] eqn:E; [|done]. cbn.
    by rewrite (Hfr i l).
Qed.

Lemma at_pos_left h r i l n :
  at_pos h r i = Some l → h !! l = Some n → at_pos h r i~0 = left n.
Proof. intros Hi Hl. cbn [at_pos]. rewrite Hi. cbn. by rewrite Hl. Qed.

Lemma at_pos_right h r i l n :
  at_pos h r i = Some l → h !! l = Some n → at_pos h r i~1 = right n.
Proof. intros Hi Hl. cbn [at_pos]. rewrite Hi. cbn. by rewrite Hl. Qed.

Lemma bfs_complete {X} h r p sl sn :
  at_pos h r p = Some sl → h !! sl = Some sn → available sn = true →
  (∀ j, (j < p)%positive →
        ∃ l n, at_pos h r j = Some l ∧ h !! l = Some n ∧ available n = false) →
  ∀ k j fuel (s : store * X),
    heap (fst s) = h → Pos.to_nat j + k = Pos.to_nat p → k < fuel →
    bfs_loop fuel
      (at_pos h r <$> (Pos.of_nat <$> seq (Pos.to_nat j) (Pos.to_nat j))) s =
    Ok (Some sl) s.
Proof.
  intros Hp Hsn Hav Hfull. induction k as [|k IH]; intros j fuel s Hh Hj Hk.
  - assert (j = p) as -> by lia. destruct fuel as [|fuel]; [lia|].
    destruct (Pos.to_nat p) as [|m] eqn:Em; [lia|].
    cbn [seq fmap list_fmap]. rewrite <-Em, Pos2Nat.id, Hp.
    cbn [bfs_loop]. rewrite (bind_read _ sn) by (by rewrite Hh).
    by rewrite Hav.
  - destruct fuel as [|fuel]; [lia|].
    destruct (Hfull j) as (l & n & Hl & Hn & Hna); [lia|].
    destruct (Pos.to_nat j) as [|m] eqn:Em; [lia|].
    cbn [seq fmap list_fmap]. rewrite <-Em, Pos2Nat.id, Hl.
    cbn [bfs_loop]. rewrite (bind_read _ n) by (by rewrite Hh).
    rewrite Hna.
    specialize (IH (Pos.succ j) fuel s Hh).
    replace (Pos.to_nat (Pos.succ j)) with (S (S m)) in IH by lia.
    rewrite <-IH; [|lia|lia]. f_equal.
    replace (S (S m)) with (m + 2) at 2 by lia.
    rewrite seq_app, !fmap_app. f_equal; [by rewrite Em|].
    cbn [seq fmap list_fmap].
    replace (Pos.of_nat (S (S m) + m)) with (j~0)%positive by lia.
    replace (Pos.of_nat (S (S (S m) + m))) with (j~1)%positive by lia.
    by rewrite (at_pos_left _ _ _ _ _ Hl Hn), (at_pos_right _ _ _ _ _ Hl Hn).
Qed.

Lemma complete_insert_node fuel st tr ids nl nn :
  complete_inv (heap st) tr ids → 1 ≤ length ids → length ids ≤ fuel →
  heap st !! nl = Some nn → peer_id nn ∉ ids → parent nn = None →
  status nn = Some "OK" →
  ∃ sl s', insert_by_node fuel (Some nl) (st, tr) = Ok (Some sl) s' ∧
           complete_inv (heap (fst s')) (snd s') (ids ++ [peer_id nn]).
Proof.
  intros (Hocc & Hemp & Hinj & Hdom) HM Hfuel Hnl Hnew Hpar Hok.
  set (M := length ids) in *. set (h := heap st) in *.
  set (r := root tr) in *.
  assert (∃ p, Pos.to_nat (p~0)%positive = S M ∨ Pos.to_nat (p~1)%positive = S M) as [p Hq].
  { destruct (Pos.of_nat (S M)) as [p|p|] eqn:E; [exists p|exists p|]; lia. }
  destruct (Hocc p) as (sl & sn & Hp & Hsn & Hsok & Hsnodes & Hsid); [lia|].
  assert (right sn = None) as Hsr.
  { rewrite <-(at_pos_right _ _ _ _ _ Hp Hsn). apply Hemp. lia. }
  assert (is_Some (left sn) ↔ Pos.to_nat (p~1)%positive = S M) as Hsl.
  { rewrite <-(at_pos_left _ _ _ _ _ Hp Hsn). split.
    - intros [x Hx]. destruct Hq as [Hq|Hq]; [|done].
      rewrite Hemp in Hx; [done|lia].
    - intros Hq'. destruct (Hocc (p~0)%positive) as (x & ? & -> & _); [lia|]. eauto. }
  assert (∀ i l, Pos.to_nat i ≤ M → at_pos h r i = Some l → l ≠ nl) as Hout.
  { intros i l Hi Hl ->. destruct (Hocc i Hi) as (l' & n' & Hl' & Hn' & _ & _ & Hid).
    assert (l' = nl) as -> by congruence. assert (n' = nn) as -> by congruence.
    apply Hnew. by eapply list_elem_of_lookup_2. }
  assert (nl ≠ sl) as Hne.
  { intros ->. apply (Hout p sl); [lia|done|done]. }
  assert (nodes tr !! peer_id nn = None) as Hfresh.
  { apply eq_None_not_Some. intros Hs. by apply Hnew, Hdom. }
  assert (tree_find_available_slot fuel r (st, tr) = Ok (Some sl) (st, tr))
    as Hbfs.
  { unfold tree_find_available_slot.
    apply (bfs_complete h r p sl sn Hp Hsn) with (k := Pos.to_nat p - 1)
                                                   (j := 1%positive);
      [|  |done|lia|lia].
    - unfold available. rewrite Hsok, Hsr. rewrite bool_decide_eq_true_2 by done.
      rewrite (bool_decide_eq_false_2 (is_Some None)) by (by intros [? ?]).
      cbn. by rewrite orb_true_r.
    - intros j Hj. destruct (Hocc j) as (l & n & Hl & Hn & _); [lia|].
      exists l, n. split_and!; try done. unfold available.
      destruct (Hocc (j~0)%positive) as (x & ? & Hx & _); [lia|].
      destruct (Hocc (j~1)%positive) as (y & ? & Hy & _); [lia|].
      rewrite (at_pos_left _ _ _ _ _ Hl Hn) in Hx.
      rewrite (at_pos_right _ _ _ _ _ Hl Hn) in Hy.
      rewrite Hx, Hy. rewrite !(bool_decide_eq_true_2 (is_Some _)) by eauto.
      by rewrite andb_false_r. }
  exists sl. eexists. split.
  { by apply (insert_by_node_run fuel nl st tr nn sl sn). }
  cbn [fst snd heap].
  set (nn' := with_parent (Some sl) (with_right None (with_left None nn))).
  set (sn' := if bool_decide (is_Some (left sn))
              then with_right (Some nl) sn else with_left (Some nl) sn).
  set (h2 := <[sl := sn']> (<[nl := nn']> (heap st))).
  assert (∀ x, h2 !! x = if decide (x = sl) then Some sn'
                         else if decide (x = nl) then Some nn'
                         else h !! x) as Hh2.
  { intros x. unfold h2. rewrite (upd_lookup _ _ _ sn).
    2:{ rewrite (upd_lookup _ _ _ nn) by done. by rewrite decide_False. }
    destruct (decide (x = sl)); [done|].
    by rewrite (upd_lookup _ _ _ nn) by done. }
  cbn [with_nodes root nodes]. fold r.
  assert (∀ i, Pos.to_nat i ≤ M → at_pos h2 r i = at_pos h r i) as HA.
  { induction i as [i IH|i IH|]; intros Hi; [| |done].
    - destruct (Hocc i) as (l & n & Hl & Hn & _); [lia|].
      destruct (Hocc (i~1)%positive Hi) as (c & ? & Hc & _).
      rewrite (at_pos_right _ _ _ _ _ Hl Hn) in *.
      cbn [at_pos]. rewrite IH, Hl by lia. cbn. rewrite Hh2.
      destruct (decide (l = sl)) as [->|?]; [congruence|].
      rewrite decide_False by (by eapply Hout; [|done]; lia).
      by rewrite Hn.
    - destruct (Hocc i) as (l & n & Hl & Hn & _); [lia|].
      destruct (Hocc (i~0)%positive Hi) as (c & ? & Hc & _).
      rewrite (at_pos_left _ _ _ _ _ Hl Hn) in *.
      cbn [at_pos]. rewrite IH, Hl by lia. cbn. rewrite Hh2.
      destruct (decide (l = sl)) as [->|?].
      + assert (n = sn) as -> by congruence. cbn. unfold sn'.
        rewrite bool_decide_eq_true_2; [done|]. rewrite Hc. eauto.
      + rewrite decide_False by (by eapply Hout; [|done]; lia).
        by rewrite Hn. }
  assert (h2 !! sl = Some sn') as Hsn2 by (by rewrite Hh2, decide_True).
  assert (h2 !! nl = Some nn') as Hnn2.
  { rewrite Hh2, decide_False, decide_True; done. }
  assert (at_pos h2 r p = Some sl) as Hp2 by (rewrite HA; [done|lia]).
  assert (∀ i, Pos.to_nat i = S M → at_pos h2 r i = Some nl) as HB.
  { intros i Hi. destruct Hq as [Hq|Hq].
    - assert (i = (p~0)%positive) as -> by lia.
      rewrite (at_pos_left _ _ _ _ _ Hp2 Hsn2). unfold sn'.
      rewrite bool_decide_eq_false_2; [done|]. rewrite Hsl. lia.
    - assert (i = (p~1)%positive) as -> by lia.
      rewrite (at_pos_right _ _ _ _ _ Hp2 Hsn2). unfold sn'.
      rewrite bool_decide_eq_true_2; [done|]. by apply Hsl. }
  assert (∀ i, S M < Pos.to_nat i → at_pos h2 r i = None) as HC.
  { induction i as [i IH|i IH|]; intros Hi; [| |lia].
    - destruct (decide (S M < Pos.to_nat i)) as [Hgt|Hle].
      { cbn [at_pos]. by rewrite IH. }
      destruct (decide (Pos.to_nat i = S M)) as [Heq|Hne'].
      { by rewrite (at_pos_right _ _ _ _ _ (HB i Heq) Hnn2). }
      destruct (Hocc i) as (l & n & Hl & Hn & _); [lia|].
      assert (at_pos h2 r i = Some l) as Hl2 by (rewrite HA; [done|lia]).
      assert (right n = None) as Hrn.
      { rewrite <-(at_pos_right _ _ _ _ _ Hl Hn). apply Hemp. lia. }
      destruct (decide (l = sl)) as [->|Hlsl].
      + rewrite (at_pos_right _ _ _ _ _ Hl2 Hsn2). unfold sn'.
        assert (i = p) as -> by (apply (Hinj i p sl); [lia|lia|done|done]).
        rewrite bool_decide_eq_false_2; [done|]. rewrite Hsl. lia.
      + assert (h2 !! l = Some n) as Hn2.
        { rewrite Hh2, !decide_False; [done| |done].
          apply (Hout i); [lia|done]. }
        by rewrite (at_pos_right _ _ _ _ _ Hl2 Hn2).
    - destruct (decide (S M < Pos.to_nat i)) as [Hgt|Hle].
      { cbn [at_pos]. by rewrite IH. }
      destruct (decide (Pos.to_nat i = S M)) as [Heq|Hne'].
      { by rewrite (at_pos_left _ _ _ _ _ (HB i Heq) Hnn2). }
      destruct (Hocc i) as (l & n & Hl & Hn & _); [lia|].
      assert (at_pos h2 r i = Some l) as Hl2 by (rewrite HA; [done|lia]).
      assert (left n = None) as Hln.
      { rewrite <-(at_pos_left _ _ _ _ _ Hl Hn). apply Hemp. lia. }
      destruct (decide (l = sl)) as [->|Hlsl].
      + assert (i = p) as -> by (apply (Hinj i p sl); [lia|lia|done|done]).
        lia.
      + assert (h2 !! l = Some n) as Hn2.
        { rewrite Hh2, !decide_False; [done| |done].
          apply (Hout i); [lia|done]. }
        by rewrite (at_pos_left _ _ _ _ _ Hl2 Hn2). }
  assert (peer_id sn' = peer_id sn ∧ status sn' = status sn) as [Hpid' Hst'].
  { unfold sn'. by case_bool_decide. }
  unfold complete_inv. rewrite length_app. cbn [length with_nodes root nodes].
  fold M r. split_and!.
  - intros i Hi. destruct (decide (Pos.to_nat i = S M)) as [Heq|Hne'].
    + exists nl, nn'. rewrite (HB i Heq). split_and!; try done.
      * cbn. by rewrite lookup_insert_eq.
      * cbn. apply list_lookup_middle. fold M. lia.
    + destruct (Hocc i) as (l & n & Hl & Hn & Hnok & Hnn & Hid); [lia|].
      assert (peer_id n ≠ peer_id nn) as Hpne.
      { intros E. apply Hnew. rewrite <-E. by eapply list_elem_of_lookup_2. }
      assert (l ≠ nl) as Hlnl by (apply (Hout i); [lia|done]).
      rewrite HA by lia.
      destruct (decide (l = sl)) as [->|Hlsl].
      * assert (n = sn) as -> by congruence. exists sl, sn'.
        rewrite Hpid', Hst'. split_and!; try done.
        -- by rewrite lookup_insert_ne.
        -- by apply lookup_app_l_Some.
      * exists l, n. split_and!; try done.
        -- by rewrite Hh2, !decide_False.
        -- by rewrite lookup_insert_ne.
        -- by apply lookup_app_l_Some.
  - intros i Hi. apply HC. lia.
  - intros i j l Hi Hj Hil Hjl.
    destruct (decide (Pos.to_nat i = S M)) as [Hieq|Hine],
             (decide (Pos.to_nat j = S M)) as [Hjeq|Hjne].
    + lia.
    + rewrite (HB i Hieq) in Hil. rewrite HA in Hjl by lia.
      exfalso. apply (Hout j l); [lia|done|congruence].
    + rewrite (HB j Hjeq) in Hjl. rewrite HA in Hil by lia.
      exfalso. apply (Hout i l); [lia|done|congruence].
    + rewrite HA in Hil, Hjl by lia. apply (Hinj i j l); [lia|lia|done|done].
  - intros pid Hpid. rewrite elem_of_app, list_elem_of_singleton.
    destruct (decide (pid = peer_id nn)) as [->|Hp']; [by right|].
    left. apply Hdom. by rewrite lookup_insert_ne in Hpid.
Qed.

Lemma complete_inv_alloc h t ids n :
  complete_inv h t ids → complete_inv (h ++ [n]) t ids.
Proof.
  intros (Hocc & Hemp & Hinj & Hdom).
  assert (∀ i, at_pos (h ++ [n]) (root t) i = at_pos h (root t) i) as Hfr.
  { apply at_pos_frame. intros i l Hl.
    destruct (decide (Pos.to_nat i ≤ length ids)) as [Hi|Hi].
    - destruct (Hocc i Hi) as (l' & m & Hl' & Hm & _).
      assert (l' = l) as -> by congruence.
      rewrite Hm. by apply lookup_app_l_Some.
    - rewrite Hemp in Hl; [done|lia]. }
  split_and!; try done.
  - intros i Hi. destruct (Hocc i Hi) as (l & m & Hl & Hm & ? & ? & ?).
    exists l, m. rewrite Hfr. split_and!; try done.
    by apply lookup_app_l_Some.
  - intros i Hi. rewrite Hfr. by apply Hemp.
  - intros i j l Hi Hj. rewrite !Hfr. by apply Hinj.
Qed.

Lemma new_BTreeNode_run `{UuidGen} {X} pid h p i l lt rt pt s fr
    (s0 : store * X) :
  pid ≠ "" →
  new_BTreeNode (Some pid) h p i l lt rt pt s fr s0 =
    Ok (length (heap (fst s0)))
       (mkStore (heap (fst s0) ++ [mkNode pid h p i l lt rt pt s fr])
                (uuid_ctr (fst s0)), snd s0).
Proof.
  intros Hpid. unfold new_BTreeNode. cbn [truthy].
  apply String.eqb_neq in Hpid. by rewrite Hpid.
Qed.

Lemma complete_run_ops `{UuidGen} fuel : ∀ ps st tr ids,
  complete_inv (heap st) tr ids → 1 ≤ length ids →
  length ids + length ps ≤ S fuel →
  NoDup (ids ++ (p_id <$> ps)) → Forall (λ a, p_id a ≠ "") ps →
  ∃ s', run_ops fuel (insert_ok_op <$> ps) (st, tr) = Ok tt s' ∧
        complete_inv (heap (fst s')) (snd s') (ids ++ (p_id <$> ps)).
Proof.
  induction ps as [|a ps IH]; intros st tr ids Hinv Hlen Hfuel Hnd Hne.
  - exists (st, tr). split; [done|]. by rewrite app_nil_r.
  - apply Forall_cons in Hne as [Ha Hne]. cbn [fmap list_fmap length] in *.
    apply NoDup_app in Hnd as Hnd'. destruct Hnd' as (_ & Hdisj & _).
    set (nn := mkNode (p_id a) (p_host a) (p_port a) (p_iqn a) (p_lun a)
                      None None None (Some "OK") false).
    destruct (complete_insert_node fuel
                (mkStore (heap st ++ [nn]) (uuid_ctr st)) tr ids
                (length (heap st)) nn)
      as (sl & [st1 tr1] & Hins & Hinv1); try done.
    { by apply complete_inv_alloc. }
    { lia. }
    { cbn [heap]. by apply list_lookup_middle. }
    { cbn. intros Hin. apply (Hdisj _ Hin). set_solver. }
    cbn [fst snd] in Hinv1.
    destruct (IH st1 tr1 (ids ++ [p_id a])) as (s' & Hrun & Hinv');
      try done.
    { rewrite length_app. cbn. lia. }
    { rewrite length_app. cbn. lia. }
    { by rewrite <-(assoc_L (++)). }
    exists s'. split; [|by rewrite <-(assoc_L (++)) in Hinv'].
    cbn [run_ops insert_ok_op run_op]. unfold insert_new_node.
    unfold bind at 1 2 3.
    rewrite (new_BTreeNode_run (X:=BTree)) by done. cbn [fst snd heap uuid_ctr].
    fold nn. by rewrite Hins.
Qed.

Lemma BTree_init_run_some_tail {X} vid r n (s : store * X) :
  heap (fst s) !! r = Some n →
  (let* _ := set_left r None in
   let* _ := set_right r None in
   let* _ := set_parent r None in
   let* n := read r in
   ret (mkTree (Some r) vid {[ peer_id n := r ]})) s =
    Ok (mkTree (Some r) vid {[ peer_id n := r ]})
       (mkStore (<[r := with_parent None (with_right None (with_left None n))]>
                   (heap (fst s))) (uuid_ctr (fst s)), snd s).
Proof.
  intros Hr.
  rewrite (bind_set_left _ _ n) by done. cbn [fst snd heap uuid_ctr].
  rewrite (bind_set_right _ _ (with_left None n))
    by (cbn [fst heap]; rewrite (upd_lookup _ _ _ n) by done;
        by rewrite decide_True).
  cbn [fst snd heap uuid_ctr]. rewrite list_insert_insert_eq.
  rewrite (bind_set_parent _ _ (with_right None (with_left None n)))
    by (cbn [fst heap]; rewrite (upd_lookup _ _ _ n) by done;
        by rewrite decide_True).
  cbn [fst snd heap uuid_ctr]. rewrite list_insert_insert_eq.
  rewrite (bind_read _ (with_parent None (with_right None (with_left None n))))
    by (cbn [fst heap]; rewrite (upd_lookup _ _ _ n) by done;
        by rewrite decide_True).
  done.
Qed.

Lemma BTree_init_run_some `{UuidGen} {X} vid r n (s : store * X) :
  heap (fst s) !! r = Some n →
  BTree_init vid (Some r) s =
    Ok (mkTree (Some r) vid {[ peer_id n := r ]})
       (mkStore (<[r := with_parent None (with_right None (with_left None n))]>
                   (heap (fst s))) (uuid_ctr (fst s)), snd s).
Proof.
  intros Hr. unfold BTree_init. rewrite bind_ret.
  by apply BTree_init_run_some_tail.
Qed.

Lemma complete_inv_single h r n vid :
  h !! r = Some n → left n = None → right n = None →
  status n = Some "OK" →
  complete_inv h (mkTree (Some r) vid {[ peer_id n := r ]}) [peer_id n].
Proof.
  intros Hr Hl Hrt Hok.
  assert (∀ i, 1 < Pos.to_nat i → at_pos h (Some r) i = None) as Hemp.
  { induction i as [i IH|i IH|]; intros Hi; [| |lia]; cbn [at_pos].
    - destruct (decide (i = 1%positive)) as [->|Hne].
      + cbn. by rewrite Hr.
      + rewrite IH by lia. done.
    - destruct (decide (i = 1%positive)) as [->|Hne].
      + cbn. by rewrite Hr.
      + rewrite IH by lia. done. }
  unfold complete_inv. cbn [root nodes length]. split_and!.
  - intros i Hi. assert (i = 1%positive) as -> by lia.
    exists r, n. split_and!; try done. by rewrite lookup_singleton_eq.
  - done.
  - intros i j l Hi Hj _ _. lia.
  - intros pid [l Hpl]. apply lookup_singleton_Some in Hpl as [<- _].
    set_solver.
Qed.

Lemma size_nat_bound i : Pos.to_nat i < 2 ^ Pos.size_nat i.
Proof.
  induction i as [i IH|i IH|]; cbn [Pos.size_nat]; rewrite ?Nat.pow_succ_r';
    [lia|lia|cbn; lia].
Qed.

(** C5, amended.  Inserting [N] nodes with status [OK], with distinct
    non-empty peer ids, into a tree whose root is a real [OK] node succeeds
    and yields a complete binary tree of [N+1] nodes: position [i] of the
    level order is occupied exactly when [i ≤ N+1], by the peers in the
    order of their insertion, so that the first [⌊log2(N+1)⌋] levels are
    full and the next one is filled from the left without gaps. *)
Theorem ok_inserts_build_complete_tree `{UuidGen} fuel vid rt ps st :
  NoDup (p_id rt :: (p_id <$> ps)) → p_id rt ≠ "" →
  Forall (λ a, p_id a ≠ "") ps → length ps ≤ fuel →
  ∃ s', build_ok_tree fuel vid rt ps st = Ok tt s' ∧
        (∀ i, is_Some (at_pos (heap (fst s')) (root (snd s')) i) ↔
              Pos.to_nat i ≤ S (length ps)) ∧
        (∀ i, Pos.size_nat i ≤ Nat.log2 (S (length ps)) →
              is_Some (at_pos (heap (fst s')) (root (snd s')) i)) ∧
        (∀ i l n, at_pos (heap (fst s')) (root (snd s')) i = Some l →
                  heap (fst s') !! l = Some n →
                  (p_id rt :: (p_id <$> ps)) !! (Pos.to_nat i - 1) =
                    Some (peer_id n)).
Proof.
  intros Hnd Hrt Hps Hfuel. unfold build_ok_tree.
  rewrite (new_BTreeNode_run (X:=unit)) by done. cbn [fst snd heap uuid_ctr].
  set (n := mkNode (p_id rt) (p_host rt) (p_port rt) (p_iqn rt) (p_lun rt)
                   None None None (Some "OK") false).
  set (r := length (heap st)).
  assert ((heap st ++ [n]) !! r = Some n) as Hr by (by apply list_lookup_middle).
  unfold fresh_tree_then.
  rewrite (BTree_init_run_some (X:=unit) vid r n) by done.
  cbn [fst snd heap uuid_ctr].
  change (with_parent None (with_right None (with_left None n))) with n.
  destruct (complete_run_ops fuel ps
              (mkStore (<[r := n]> (heap st ++ [n])) (uuid_ctr st))
              (mkTree (Some r) vid {[ peer_id n := r ]}) [p_id rt])
    as (s' & Hrun & Hocc & Hemp & _ & _); try done.
  { apply (complete_inv_single _ r n); try done. cbn [heap].
    rewrite (upd_lookup _ _ _ n) by done. by rewrite decide_True. }
  { cbn. lia. }
  exists s'. split; [done|]. cbn [app length] in *.
  rewrite length_fmap in *.
  assert (∀ i, is_Some (at_pos (heap (fst s')) (root (snd s')) i) ↔
               Pos.to_nat i ≤ S (length ps)) as Hiff.
  { intros i. split.
    - intros [l Hl]. destruct (decide (Pos.to_nat i ≤ S (length ps))); [done|].
      rewrite Hemp in Hl; [done|lia].
    - intros Hi. destruct (Hocc i Hi) as (l & ? & -> & _). eauto. }
  split_and!; [done| |].
  - intros i Hi. apply Hiff. pose proof (size_nat_bound i) as Hb.
    pose proof (Nat.log2_spec (S (length ps))) as [Hlog _]; [lia|].
    assert (2 ^ Pos.size_nat i ≤ 2 ^ Nat.log2 (S (length ps))).
    { apply Nat.pow_le_mono_r; lia. }
    lia.
  - intros i l m Hl Hm. destruct (decide (Pos.to_nat i ≤ S (length ps))) as [Hi|Hi].
    + destruct (Hocc i Hi) as (l' & m' & Hl' & Hm' & _ & _ & Hid).
      assert (l' = l) as -> by congruence. congruence.
    + rewrite Hemp in Hl; [done|lia].
Qed.

(** ** What removal never does *)

Lemma quiet_bind {A B} (m : M BTree A) (k : A → M BTree B) :
  quiet m → (∀ a, quiet (k a)) → quiet (bind m k).
Proof.
  intros Hm Hk s. unfold bind. specialize (Hm s).
  destruct (m s) as [a s1| | |]; try done.
  specialize (Hk a s1). destruct (k a s1); try done. congruence.
Qed.

Lemma quiet_ret {A} (a : A) : quiet (ret a).
Proof. by intros s. Qed.

Lemma quiet_read l : quiet (read l).
Proof. intros s. unfold read. by destruct (heap (fst s) !! l). Qed.

Lemma quiet_write l n : quiet (write l n).
Proof. by intros s. Qed.

Lemma quiet_set_left l v : quiet (set_left l v).
Proof. apply quiet_bind; [apply quiet_read|]. intros n. apply quiet_write. Qed.

Lemma quiet_set_right l v : quiet (set_right l v).
Proof. apply quiet_bind; [apply quiet_read|]. intros n. apply quiet_write. Qed.

Lemma quiet_set_parent l v : quiet (set_parent l v).
Proof. apply quiet_bind; [apply quiet_read|]. intros n. apply quiet_write. Qed.

Create HintDb quiet discriminated.
#[local] Hint Resolve quiet_ret quiet_read quiet_write quiet_set_left
  quiet_set_right quiet_set_parent : quiet.

(** Peel one [let*] whose first computation the hints show quiet. *)
Ltac quiet_step := apply quiet_bind; [auto with quiet|intros ?].

Lemma quiet_left_spine_walk fuel : ∀ l, quiet (left_spine_walk fuel l).
Proof.
  induction fuel as [|fuel IH]; intros l; [by intros s|]. cbn.
  quiet_step. destruct (available _); [auto with quiet|].
  destruct (left _); apply IH.
Qed.

#[local] Hint Resolve quiet_left_spine_walk : quiet.

Lemma quiet_replacement fuel t : quiet (replacement fuel t).
Proof.
  unfold replacement. quiet_step.
  destruct (left _) as [lc|], (right _) as [rc|]; auto with quiet.
  do 3 quiet_step. apply quiet_bind; [|auto with quiet].
  case_bool_decide; auto with quiet.
Qed.

Lemma quiet_relink t up : quiet (relink t up).
Proof.
  unfold relink. apply quiet_bind.
  { destruct up as [u|]; [quiet_step|]; auto with quiet. }
  intros _. quiet_step. apply quiet_bind.
  { destruct (parent _) as [pl|]; [quiet_step|]; [case_bool_decide|];
      auto with quiet. }
  intros _ s. rewrite root_update_run. cbn. by case_bool_decide.
Qed.

#[local] Hint Resolve quiet_replacement quiet_relink : quiet.

Lemma quiet_tree_remove_by_node fuel : ∀ t,
  quiet (tree_remove_by_node fuel (Some t)).
Proof.
  induction fuel as [|fuel IH]; intros t; [by intros s|].
  cbn [tree_remove_by_node]. quiet_step. apply quiet_bind.
  { case_bool_decide; [|auto with quiet]. apply quiet_bind.
    { destruct (left _) as [lc|]; [|auto with quiet].
      apply quiet_bind; [apply IH|auto with quiet]. }
    intros _. quiet_step. destruct (right _) as [rc|]; [|auto with quiet].
    apply quiet_bind; [apply IH|auto with quiet]. }
  intros _. do 2 quiet_step. auto with quiet.
Qed.

Lemma remove_by_peer_id_cases fuel pid (s : store * BTree) :
  match nodes (snd s) !! pid with
  | None => remove_by_peer_id fuel pid s = Raise InvalidParameterValue s
  | Some target =>
      match remove_by_peer_id fuel pid s with
      | Ok r s' => r = target ∧ nodes (snd s') = delete pid (nodes (snd s))
      | Raise _ _ => False
      | _ => True
      end
  end.
Proof.
  unfold remove_by_peer_id. rewrite bind_get_self.
  destruct (nodes (snd s) !! pid) as [t|]; [|done].
  pose proof (quiet_tree_remove_by_node fuel t s) as Hq. unfold bind.
  destruct (tree_remove_by_node fuel (Some t) s) as [r s1| | |]; try done.
  cbn. by rewrite Hq.
Qed.

(** ** The walk down the left spine *)

Lemma left_spine_walk_spins {X} l n (s : store * X) :
  heap (fst s) !! l = Some n → available n = false → left n = None →
  ∀ fuel, left_spine_walk fuel l s = OutOfFuel.
Proof.
  intros Hl Hav Hlt. induction fuel as [|fuel IH]; [done|]. cbn.
  rewrite (bind_read _ n) by done. by rewrite Hav, Hlt.
Qed.

Lemma tree_remove_by_node_spins fuel t tn l ln r (s : store * BTree) :
  heap (fst s) !! t = Some tn → status tn ≠ Some "pending" →
  left tn = Some l → right tn = Some r →
  heap (fst s) !! l = Some ln → available ln = false → left ln = None →
  tree_remove_by_node fuel (Some t) s = OutOfFuel.
Proof.
  intros Ht Hst Hl Hr Hln Hav Hll.
  destruct fuel as [|fuel]; [done|]. cbn [tree_remove_by_node].
  rewrite (bind_read _ tn) by done.
  rewrite bool_decide_eq_false_2 by done. rewrite bind_ret.
  unfold replacement, bind at 1. rewrite (bind_read _ tn) by done.
  rewrite Hl, Hr. unfold bind at 1.
  assert (left_spine_walk fuel t s = OutOfFuel) as ->; [|done].
  destruct fuel as [|fuel]; [done|]. cbn.
  rewrite (bind_read _ tn) by done.
  assert (available tn = false) as ->.
  { unfold available. rewrite Hl, Hr.
    rewrite !(bool_decide_eq_true_2 (is_Some _)) by eauto.
    by rewrite andb_false_r. }
  rewrite Hl. by eapply left_spine_walk_spins.
Qed.

(** C4, as the code has it.  When the target has two children, is not
    pending, and its left child can take no child (it is not [OK], or is
    full) and has no left child itself, the walk never reaches an available
    node: whatever the number of steps granted, [tree_remove_by_node] does
    not return, and neither does [delete_metadata] for a peer so placed. *)
Theorem left_spine_walk_diverges fuel vid pid (s : store * BtreeExecutor)
    t target tn l ln r vl :
  volumes (snd s) !! vid = Some t → nodes t !! pid = Some target →
  heap (fst s) !! target = Some tn →
  host_to_volumes (snd s) !! host tn = Some vl → is_Some (vl !! pid) →
  status tn ≠ Some "pending" → left tn = Some l → right tn = Some r →
  heap (fst s) !! l = Some ln → available ln = false → left ln = None →
  tree_remove_by_node fuel (Some target) (fst s, t) = OutOfFuel ∧
  delete_volume_metadata fuel vid (Some pid) s = OutOfFuel.
Proof.
  intros Ht Hpid Htn Hvl Hin Hst Hl Hr Hln Hav Hll.
  assert (∀ st, heap st = heap (fst s) →
            tree_remove_by_node fuel (Some target) (st, t) = OutOfFuel)
    as Hspin.
  { intros st Hst'. apply (tree_remove_by_node_spins fuel target tn l ln r);
      cbn [fst]; try done; by rewrite Hst'. }
  split; [by apply Hspin|].
  unfold delete_volume_metadata. rewrite bind_get_self, Ht. unfold reraise.
  rewrite Hpid. rewrite (bind_read _ tn) by done.
  unfold remove_host_bookkeeping. rewrite bind_assoc, bind_get_self, Hvl.
  rewrite bool_decide_eq_true_2 by done. rewrite bind_put_self.
  cbn [fst snd]. unfold bind at 1. unfold on_volume, zoom at 1.
  cbn [fst snd with_hosts volumes]. rewrite Ht.
  unfold remove_by_peer_id. rewrite bind_get_self. cbn [snd]. rewrite Hpid.
  unfold bind at 1. by rewrite Hspin.
Qed.

(** ** Worked scenarios *)

Lemma remove_by_peer_id_count fuel pid (s s' : store * BTree) r :
  remove_by_peer_id fuel pid s = Ok r s' → S (count (snd s')) = count (snd s).
Proof.
  intros Hrm. pose proof (remove_by_peer_id_cases fuel pid s) as Hspec.
  rewrite Hrm in Hspec. destruct (nodes (snd s) !! pid) as [t|] eqn:Ht; [|done].
  destruct Hspec as [_ Hn]. unfold count. rewrite Hn.
  rewrite map_size_delete_Some by eauto.
  assert (size (nodes (snd s)) ≠ 0); [|lia].
  apply map_size_ne_0_lookup_2 with pid. eauto.
Qed.

(** C2, on the code.  [remove_by_peer_id] deletes one entry of [nodes],
    whatever lies under the removed node: the count always drops by one.
    In the scenario the root [r] is pending and has the child [c], and the
    tree counts four nodes; [remove_by_peer_id "r"] returns, the count is
    three, and [c], a descendant of the removed node, is still in [nodes]. *)
Theorem pending_removal_keeps_descendant_in_nodes :
  (∀ fuel pid (s s' : store * BTree) r,
     remove_by_peer_id fuel pid s = Ok r s' →
     S (count (snd s')) = count (snd s)) ∧
  match pending_root_with_child with
  | Ok r s =>
      (status <$> heap (fst s) !! r) = Some (Some "pending") ∧
      (left <$> heap (fst s) !! r) = Some (Some 3) ∧
      (peer_id <$> heap (fst s) !! 3) = Some "c" ∧
      count (snd s) = 4 ∧
      match remove_by_peer_id 10 "r" s with
      | Ok _ s' => count (snd s') = 3 ∧ nodes (snd s') !! "c" = Some 3
      | _ => False
      end
  | _ => False
  end.
Proof.
  split; [intros; by eapply remove_by_peer_id_count|].
  vm_compute. repeat split.
Qed.

(** ** The root is a node like the others *)




(** ** The registry *)

(** C3, amended.  In a volume whose root is full, with a first child
    that is [OK] and has a free slot (the state after two host-only calls
    once [add_metadata] has confirmed [p1]), a host-only [get_parents]
    call succeeds: it generates the next identifier [p3],
    [find_available_slot] returns the first child, the new pending node is
    hung under it, and the result is [p3] with the identity of that child
    as its only parent. *)
Theorem host_only_call_goes_under_first_child `{UuidGen} fuel vid hst
    (s : store * BtreeExecutor) t f fn l1 n1 l2 :
  2 ≤ fuel →
  volumes (snd s) !! vid = Some t → root t = Some f →
  heap (fst s) !! f = Some fn → left fn = Some l1 → right fn = Some l2 →
  heap (fst s) !! l1 = Some n1 → available n1 = true → l1 ≠ f →
  generate_uuid (uuid_ctr (fst s)) ≠ "" →
  nodes t !! generate_uuid (uuid_ctr (fst s)) = None →
  (∀ m, host_to_volumes (snd s) !! Some hst = Some m →
        m !! generate_uuid (uuid_ctr (fst s)) = None) →
  tree_find_available_slot fuel (root t) (fst s, t) = Ok (Some l1) (fst s, t) ∧
  ∃ s', get_volume_parents fuel (Some vid) None (Some hst) s =
          Ok (generate_uuid (uuid_ctr (fst s)), [identity n1]) s' ∧
        ∃ t' nl nn,
          volumes (snd s') !! vid = Some t' ∧
          nodes t' !! generate_uuid (uuid_ctr (fst s)) = Some nl ∧
          heap (fst s') !! nl = Some nn ∧ parent nn = Some l1 ∧
          status nn = Some "pending" ∧ host nn = Some hst.
Proof.
  intros Hfuel Hvol Hroot Hf Hfl Hfr Hl1 Hav Hne Hp3 Hfresh Hhost.
  destruct s as [st e]. cbn [fst snd] in *.
  set (p3 := generate_uuid (uuid_ctr st)) in *.
  assert (available fn = false) as Hfn.
  { unfold available. rewrite Hfl, Hfr.
    rewrite !(bool_decide_eq_true_2 (is_Some _)) by eauto.
    by rewrite andb_false_r. }
  assert (∀ h' (x : store * BTree), heap (fst x) = heap st ++ h' →
            tree_find_available_slot fuel (root t) x = Ok (Some l1) x)
    as Hbfs.
  { intros h' x Hx. unfold tree_find_available_slot. rewrite Hroot.
    destruct fuel as [|[|fuel]]; [lia|lia|]. cbn [bfs_loop].
    rewrite (bind_read _ fn) by (rewrite Hx; by apply lookup_app_l_Some).
    rewrite Hfn. cbn [app]. rewrite Hfl.
    rewrite (bind_read _ n1) by (rewrite Hx; by apply lookup_app_l_Some).
    by rewrite Hav. }
  split.
  { apply (Hbfs []). cbn. by rewrite app_nil_r. }
  unfold get_volume_parents.
  rewrite bool_decide_eq_false_2 by (by intros [_ ?]).
  rewrite bind_get_self. cbn [snd].
  rewrite bool_decide_eq_true_2 by eauto. rewrite bind_ret.
  cbn [truthy]. rewrite !bind_assoc.
  rewrite bind_gen_uuid. cbn [fst snd heap uuid_ctr]. fold p3.
  rewrite !bind_assoc.
  rewrite (bind_run _ _ _ _ _ (new_BTreeNode_run (X:=BtreeExecutor) _ _ _ _ _
                                 _ _ _ _ _ _ Hp3)).
  cbn [fst snd heap uuid_ctr].
  set (nn := mkNode p3 (Some hst) None None None None None None
                    (Some "pending") false).
  set (nl := length (heap st)).
  set (st1 := mkStore (heap st ++ [nn]) (S (uuid_ctr st))).
  rewrite !bind_assoc.
  assert (nl ≠ l1) as Hnl1.
  { apply lookup_lt_Some in Hl1. unfold nl. lia. }
  set (nn' := with_parent (Some l1) (with_right None (with_left None nn))).
  set (sn' := if bool_decide (is_Some (left n1))
              then with_right (Some nl) n1 else with_left (Some nl) n1).
  set (h2 := <[l1 := sn']> (<[nl := nn']> (heap st ++ [nn]))).
  set (t' := with_nodes (<[p3 := nl]> (nodes t)) t).
  set (st2 := mkStore h2 (S (uuid_ctr st))).
  assert (heap st1 !! nl = Some nn) as Hnn by (by apply list_lookup_middle).
  assert (heap st1 !! l1 = Some n1) as Hl1' by (by apply lookup_app_l_Some).
  assert (insert_by_node fuel (Some nl) (st1, t) = Ok (Some l1) (st2, t'))
    as Hins.
  { apply (insert_by_node_run fuel nl st1 t nn l1 n1); try done.
    by apply (Hbfs [nn]). }
  assert (on_volume vid (insert_by_node fuel (Some nl)) (st1, e) =
            Ok (Some l1) (st2, with_volume vid t' e)) as Hon.
  { unfold on_volume, zoom. cbn [fst snd]. by rewrite Hvol, Hins. }
  rewrite (bind_run _ _ _ _ _ Hon).
  assert (∃ e2, add_host_bookkeeping (Some hst) p3 nl
                  (st2, with_volume vid t' e) = Ok tt (st2, e2) ∧
                volumes e2 = <[vid := t']> (volumes e)) as (e2 & Hadd & He2).
  { unfold add_host_bookkeeping. rewrite bind_get_self. cbn [snd with_volume
      host_to_volumes].
    destruct (host_to_volumes e !! Some hst) as [m|] eqn:Hm.
    - rewrite bind_ret. rewrite (Hhost m eq_refl).
      rewrite bool_decide_eq_false_2 by (by intros [? ?]).
      rewrite bind_get_self. eexists. split; [reflexivity|done].
    - rewrite bind_assoc, bind_put_self, bind_ret. rewrite lookup_empty.
      rewrite bool_decide_eq_false_2 by (by intros [? ?]).
      rewrite bind_get_self. eexists. split; [reflexivity|done]. }
  rewrite !bind_assoc.
  rewrite (bind_run _ _ _ _ _ Hadd). rewrite !bind_assoc.
  rewrite bind_get_self. cbn [snd].
  rewrite He2, lookup_insert_eq. cbn [t' with_nodes nodes].
  rewrite lookup_insert_eq. rewrite bind_ret. cbn [fst snd].
  assert (h2 !! nl = Some nn') as Hnn2.
  { unfold h2. rewrite (upd_lookup _ _ _ n1).
    2:{ rewrite (upd_lookup _ _ _ nn) by done. by rewrite decide_False. }
    rewrite decide_False by done.
    rewrite (upd_lookup _ _ _ nn) by done. by rewrite decide_True. }
  assert (h2 !! l1 = Some sn') as Hsn2.
  { unfold h2. rewrite (upd_lookup _ _ _ n1).
    2:{ rewrite (upd_lookup _ _ _ nn) by done. by rewrite decide_False. }
    by rewrite decide_True. }
  rewrite (bind_read _ nn') by done. rewrite bind_get_self. cbn [snd].
  rewrite He2, lookup_insert_eq. cbn [with_nodes root parent nn' with_parent].
  change (root t') with (root t).
  rewrite Hroot. rewrite bool_decide_eq_false_2 by (by intros [= ?]).
  rewrite (bind_read _ sn') by done.
  exists (st2, e2). split.
  - unfold ret. do 3 f_equal. unfold sn'. by case_bool_decide.
  - exists t', nl, nn'. cbn [fst snd]. rewrite He2, lookup_insert_eq.
    split_and!; try done. cbn. by rewrite lookup_insert_eq.
Qed.

(** ** Failing calls *)

Lemma quiet_no_raise {A} (m : M BTree A) s e s' :
  quiet m → m s ≠ Raise e s'.
Proof. intros Hq E. specialize (Hq s). by rewrite E in Hq. Qed.

Lemma quiet_cascade fuel (target : loc) tn :
  quiet (if bool_decide (status tn = Some "pending") then
           let* _ := match left tn with
                     | Some c =>
                         let* _ := tree_remove_by_node fuel (Some c) in ret tt
                     | None => ret tt
                     end in
           let* tn := read target in
           match right tn with
           | Some c => let* _ := tree_remove_by_node fuel (Some c) in ret tt
           | None => ret tt
           end
         else ret tt).
Proof.
  case_bool_decide; [|apply quiet_ret]. apply quiet_bind.
  { destruct (left tn) as [c|]; [|apply quiet_ret].
    apply quiet_bind; [apply quiet_tree_remove_by_node|].
    intros _. apply quiet_ret. }
  intros _. apply quiet_bind; [apply quiet_read|]. intros n'.
  destruct (right n') as [c|]; [|apply quiet_ret].
  apply quiet_bind; [apply quiet_tree_remove_by_node|].
  intros _. apply quiet_ret.
Qed.

Lemma insert_by_node_cases fuel nl (s : store * BTree) :
  match insert_by_node fuel (Some nl) s with
  | Raise e s' => s' = s
  | Ok r s' =>
      ∃ nn sl n', heap (fst s) !! nl = Some nn ∧ r = Some sl ∧
                  snd s' = with_nodes (<[peer_id nn := nl]> (nodes (snd s)))
                                      (snd s) ∧
                  heap (fst s') !! nl = Some n' ∧ parent n' = Some sl
  | _ => True
  end.
Proof.
  destruct s as [st t]. unfold insert_by_node.
  destruct (heap st !! nl) as [nn|] eqn:Hnl.
  2:{ unfold bind, read. cbn. by rewrite Hnl. }
  rewrite (bind_read _ nn) by done. rewrite bind_get_self. cbn [snd].
  case_bool_decide; [done|]. case_bool_decide; [done|].
  unfold bind at 1.
  pose proof (bfs_loop_pure fuel [root t] (st, t)) as Hpure.
  unfold tree_find_available_slot.
  destruct (bfs_loop fuel [root t] (st, t)) as [slot s1|e s1| |] eqn:Hbfs;
    try done.
  subst s1. destruct slot as [sl|]; [|by apply bfs_loop_Ok_None in Hbfs].
  rewrite bind_put_self. cbn [fst snd].
  rewrite (bind_set_left _ _ nn) by done. cbn [fst snd heap uuid_ctr].
  rewrite (bind_set_right _ _ (with_left None nn))
    by (cbn [fst heap]; rewrite (upd_lookup _ _ _ nn) by done;
        by rewrite decide_True).
  cbn [fst snd heap uuid_ctr]. rewrite list_insert_insert_eq.
  rewrite (bind_set_parent _ _ (with_right None (with_left None nn)))
    by (cbn [fst heap]; rewrite (upd_lookup _ _ _ nn) by done;
        by rewrite decide_True).
  cbn [fst snd heap uuid_ctr]. rewrite list_insert_insert_eq.
  set (nn' := with_parent (Some sl) (with_right None (with_left None nn))).
  set (h1 := <[nl := nn']> (heap st)).
  assert (h1 !! nl = Some nn') as Hnl1.
  { unfold h1. rewrite (upd_lookup _ _ _ nn) by done. by rewrite decide_True. }
  destruct (h1 !! sl) as [sn|] eqn:Hsl.
  2:{ unfold bind, read. cbn. by rewrite Hsl. }
  rewrite (bind_read _ sn) by done.
  assert (∀ sn', parent sn' = parent sn →
            ∃ n', <[sl := sn']> h1 !! nl = Some n' ∧ parent n' = Some sl)
    as Hfin.
  { intros sn' Hp. rewrite (upd_lookup _ _ _ sn) by done.
    destruct (decide (nl = sl)) as [->|Hne]; [|eauto].
    exists sn'. split; [done|]. rewrite Hp.
    assert (sn = nn') as -> by congruence. done. }
  case_bool_decide.
  - rewrite (bind_set_right _ _ sn) by done. cbn.
    destruct (Hfin (with_right (Some nl) sn) eq_refl) as (n' & ? & ?).
    exists nn, sl, n'. done.
  - rewrite (bind_set_left _ _ sn) by done. cbn.
    destruct (Hfin (with_left (Some nl) sn) eq_refl) as (n' & ? & ?).
    exists nn, sl, n'. done.
Qed.

Lemma update_nodes_Raise `{UuidGen} fuel pid h p i l s (st : store * BTree)
    e st' :
  update_nodes fuel pid h p i l s st = Raise e st' →
  snd st' = snd st ∧ ∃ extra, heap (fst st') = heap (fst st) ++ extra.
Proof.
  unfold update_nodes. intros Hr.
  apply bind_Raise in Hr as [Hr|(pid' & s1 & Hpid & Hr)].
  { by destruct pid. }
  assert (snd s1 = snd st ∧ heap (fst s1) = heap (fst st)) as [Es1 Eh1].
  { destruct pid; by injection Hpid as <- <-. }
  rewrite bind_get_self in Hr.
  apply bind_Raise in Hr as [Hr|(target & s2 & Htarget & Hr)].
  - destruct (nodes (snd s1) !! pid') as [target|].
    + apply bind_Raise in Hr as [Hr|(tn & s2 & Hrd & Hr)].
      * unfold read in Hr. by destruct (heap (fst s1) !! target).
      * by apply bind_Raise in Hr as [Hr|(? & ? & _ & Hr)].
    + apply bind_Raise in Hr as [Hr|(target & s2 & Hnew & Hr)].
      { unfold new_BTreeNode in Hr.
        apply bind_Raise in Hr as [Hr|(? & ? & _ & Hr)]; [|done].
        by destruct (truthy (Some pid')). }
      apply new_BTreeNode_Ok in Hnew as (pid'' & _ & Hh & Hs & _).
      apply bind_Raise in Hr as [Hr|(? & ? & _ & Hr)]; [|done].
      pose proof (insert_by_node_cases fuel target s2) as Hc.
      rewrite Hr in Hc. subst st'. split; [congruence|].
      rewrite Hh, Eh1. eauto.
  - exfalso. apply bind_Raise in Hr as [Hr|(tn & s3 & Hrd & Hr)].
    { unfold read in Hr. by destruct (heap (fst s2) !! target). }
    apply bind_Raise in Hr as [Hr|(? & ? & _ & Hr)]; [|done].
    by eapply quiet_no_raise; [apply quiet_cascade|exact Hr].
Qed.

Lemma with_volume_id vid t (e : BtreeExecutor) :
  volumes e !! vid = Some t → with_volume vid t e = e.
Proof.
  intros Ht. destruct e as [vs hs]. unfold with_volume. cbn in *.
  by rewrite insert_id.
Qed.

Lemma add_volume_metadata_Raise `{UuidGen} fuel vid pid h p i l
    (s s' : store * BtreeExecutor) e :
  add_volume_metadata fuel vid pid h p i l s = Raise e s' →
  snd s' = snd s ∧ ∃ extra, heap (fst s') = heap (fst s) ++ extra.
Proof.
  unfold add_volume_metadata. rewrite bind_get_self.
  case_bool_decide as Hv.
  2:{ intros [= _ <-]. split; [done|]. exists []. by rewrite app_nil_r. }
  destruct Hv as [t Ht]. intros Hr.
  apply bind_Raise in Hr as [Hr|(target & s1 & _ & Hr)].
  - unfold on_volume, zoom in Hr. rewrite Ht in Hr.
    destruct (update_nodes fuel pid h p i l (Some "OK") (fst s, t))
      as [?|e1 s1| |] eqn:Hu; try done.
    injection Hr as _ <-. apply update_nodes_Raise in Hu as [Hs Hh].
    cbn [fst snd] in *. rewrite Hs. by rewrite with_volume_id.
  - exfalso. apply bind_Raise in Hr as [Hr|(? & ? & _ & Hr)]; [|done].
    unfold read in Hr. by destruct (heap (fst s1) !! target).
Qed.

Lemma delete_volume_metadata_Raise fuel vid pid
    (s s' : store * BtreeExecutor) e :
  delete_volume_metadata fuel vid pid s = Raise e s' → s' = s.
Proof.
  unfold delete_volume_metadata. destruct pid as [pid|]; [|by intros [= _ <-]].
  rewrite bind_get_self. destruct (volumes (snd s) !! vid) as [t|] eqn:Ht;
    [|by intros [= _ <-]].
  unfold reraise.
  set (m := match nodes t !! pid with
            | Some node => _
            | None => _
            end).
  destruct (m s) as [?|e1 s1| |] eqn:Hm; try done.
  assert (s1 = s) as ->; [|by case_bool_decide; intros [= _ <-]].
  unfold m in Hm. destruct (nodes t !! pid) as [node|] eqn:Hn;
    [|by injection Hm as _ <-].
  apply bind_Raise in Hm as [Hm|(n & s2 & Hrd & Hm)].
  { unfold read in Hm. by destruct (heap (fst s) !! node). }
  apply read_Ok in Hrd as [-> _].
  apply bind_Raise in Hm as [Hm|([] & s2 & Hrm & Hm)].
  { unfold remove_host_bookkeeping in Hm. rewrite bind_get_self in Hm.
    destruct (host_to_volumes (snd s) !! host n) as [vl|];
      [|by injection Hm as _ <-].
    case_bool_decide; [done|]. by injection Hm as _ <-. }
  exfalso.
  assert (fst s2 = fst s ∧ volumes (snd s2) = volumes (snd s)) as [Ef Ev].
  { unfold remove_host_bookkeeping in Hrm. rewrite bind_get_self in Hrm.
    destruct (host_to_volumes (snd s) !! host n) as [vl|]; [|done].
    case_bool_decide; [|done]. by injection Hrm as <-. }
  apply bind_Raise in Hm as [Hm|(? & ? & _ & Hm)]; [|done].
  unfold on_volume, zoom in Hm. rewrite Ev, Ht in Hm.
  pose proof (remove_by_peer_id_cases fuel pid (fst s2, t)) as Hspec.
  cbn [snd] in Hspec. rewrite Hn in Hspec.
  by destruct (remove_by_peer_id fuel pid (fst s2, t)).
Qed.


Lemma BTree_init_None_cases `{UuidGen} {X} vid (s : store * X) :
  ∃ t n, BTree_init vid None s =
           Ok t (mkStore (heap (fst s) ++ [n]) (5 + uuid_ctr (fst s)), snd s) ∧
         t = mkTree (Some (length (heap (fst s)))) vid
                    {[ peer_id n := length (heap (fst s)) ]} ∧
         left n = None ∧ right n = None ∧ parent n = None ∧
         status n = Some "OK" ∧ fake_root n = true.
Proof.
  unfold BTree_init. rewrite !bind_assoc.
  do 4 (rewrite bind_gen_uuid; cbn [fst snd heap uuid_ctr]; rewrite ?bind_assoc).
  unfold new_BTreeNode. cbn [truthy]. rewrite !bind_assoc, bind_gen_uuid.
  cbn [fst snd heap uuid_ctr]. unfold alloc at 1. unfold bind at 1.
  cbn [fst snd heap uuid_ctr].
  match goal with
  | |- context [heap (fst s) ++ [?n0]] => set (n := n0)
  end.
  rewrite (BTree_init_run_some_tail vid _ n)
    by (cbn [fst heap]; by apply list_lookup_middle).
  cbn [fst snd heap uuid_ctr].
  exists (mkTree (Some (length (heap (fst s)))) vid
                 {[ peer_id n := length (heap (fst s)) ]}), n.
  split_and!; try done. do 3 f_equal.
  replace (length (heap (fst s))) with (length (heap (fst s)) + 0) at 1 by lia.
  by rewrite insert_app_r.
Qed.

Lemma add_host_bookkeeping_cases h pid node (s : store * BtreeExecutor) :
  match add_host_bookkeeping h pid node s with
  | Raise e _ => e = Duplicate
  | Ok _ s' => fst s' = fst s ∧ volumes (snd s') = volumes (snd s)
  | _ => True
  end.
Proof.
  unfold add_host_bookkeeping. rewrite bind_get_self.
  destruct (host_to_volumes (snd s) !! h) as [vl|].
  - rewrite bind_ret. case_bool_decide; [done|]. by rewrite bind_get_self.
  - rewrite bind_assoc, bind_put_self, bind_ret.
    case_bool_decide; [done|]. by rewrite bind_get_self.
Qed.

Lemma get_volume_parents_Raise `{UuidGen} fuel vid pid h
    (s s' : store * BtreeExecutor) e :
  (∀ n, generate_uuid n ≠ "") →
  get_volume_parents fuel vid pid h s = Raise e s' →
  e = Duplicate ∨
  (host_to_volumes (snd s') = host_to_volumes (snd s) ∧
   (∃ extra, heap (fst s') = heap (fst s) ++ extra) ∧
   (volumes (snd s') = volumes (snd s) ∨
    ∃ v t, vid = Some v ∧ volumes (snd s) !! v = None ∧
           volumes (snd s') = <[v := t]> (volumes (snd s)) ∧ count t = 1)).
Proof.
  intros Hgen. unfold get_volume_parents.
  assert (∃ extra, heap (fst s) = heap (fst s) ++ extra) as Hnil.
  { exists []. by rewrite app_nil_r. }
  case_bool_decide; [intros [= _ <-]; by eauto|].
  destruct vid as [v|]; [|intros [= _ <-]; by eauto].
  rewrite bind_get_self. intros Hr.
  (* the tree of the volume is there, made on the spot if need be *)
  assert (∃ s1 t1,
            (if bool_decide (is_Some (volumes (snd s) !! v))
             then ret tt
             else let* t := BTree_init v None in
                  let* self := get_self in
                  put_self (with_volume v t self)) s = Ok tt s1 ∧
            volumes (snd s1) !! v = Some t1 ∧
            host_to_volumes (snd s1) = host_to_volumes (snd s) ∧
            (∃ extra, heap (fst s1) = heap (fst s) ++ extra) ∧
            (volumes (snd s1) = volumes (snd s) ∨
             ∃ t, volumes (snd s) !! v = None ∧
                  volumes (snd s1) = <[v := t]> (volumes (snd s)) ∧
                  count t = 1))
    as (s1 & t1 & Hlazy & Ht1 & Hhosts1 & Hheap1 & Hvol1).
  { case_bool_decide as Hv.
    - destruct Hv as [t Ht]. exists s, t. split_and!; eauto.
    - destruct (BTree_init_None_cases (X:=BtreeExecutor) v s)
        as (t & n & Hinit & -> & _).
      rewrite (bind_run _ _ _ _ _ Hinit).
      rewrite bind_get_self. unfold put_self. cbn [fst snd].
      eexists _, _. split; [reflexivity|]. cbn [fst snd heap with_volume
        volumes host_to_volumes]. split_and!; eauto.
      + by rewrite lookup_insert_eq.
      + right. eexists. split_and!; [|done|].
        * apply eq_None_not_Some. done.
        * apply map_size_singleton. }
  rewrite (bind_run _ _ _ _ _ Hlazy) in Hr. clear Hlazy.
  (* what follows can only raise with the state it started from *)
  assert (e = Duplicate ∨
          (snd s' = snd s1 ∧ ∃ extra, heap (fst s') = heap (fst s1) ++ extra))
    as [->|[Es' [extra' Hh']]]; [|by left|].
  2:{ right. destruct Hheap1 as [extra Hh]. rewrite Es', Hh', Hh.
      split_and!; [done|by rewrite <-(assoc_L (++)); eauto|].
      destruct Hvol1 as [?|(t & ? & ? & ?)]; [by left|].
      right. exists v, t. done. }
  clear Hhosts1 Hheap1 Hvol1 Hnil.
  destruct (truthy pid).
  - (* a known peer: nothing is written *)
    right.
    assert (s' = s1) as ->; [|split; [done|exists []; by rewrite app_nil_r]].
    rewrite bind_assoc, bind_get_self, Ht1 in Hr.
    destruct (nodes t1 !! default "" pid) as [target|];
      [|by injection Hr as _ <-].
    rewrite bind_ret in Hr. cbn [fst snd] in Hr.
    apply bind_Raise in Hr as [Hr|(tn & s3 & Hrd & Hr)].
    { unfold read in Hr. by destruct (heap (fst s1) !! target). }
    apply read_Ok in Hrd as [-> Htn]. rewrite bind_get_self, Ht1 in Hr.
    case_bool_decide; [done|]. destruct (parent tn) as [pl|];
      [|by injection Hr as _ <-].
    apply bind_Raise in Hr as [Hr|(? & ? & _ & Hr)]; [|done].
    unfold read in Hr. by destruct (heap (fst s1) !! pl).
  - (* a new peer *)
    rewrite !bind_assoc, bind_gen_uuid in Hr. cbn [fst snd heap uuid_ctr] in Hr.
    rewrite bind_assoc in Hr.
    rewrite (bind_run _ _ _ _ _
               (new_BTreeNode_run (X:=BtreeExecutor) _ _ _ _ _ _ _ _ _ _ _
                                  (Hgen _))) in Hr.
    cbn [fst snd heap uuid_ctr] in Hr.
    set (p := generate_uuid (uuid_ctr (fst s1))) in *.
    set (nl := length (heap (fst s1))) in *.
    rewrite !bind_assoc in Hr.
    apply bind_Raise in Hr as [Hr|(slot & s3 & Hins & Hr)].
    + right. unfold on_volume, zoom in Hr. cbn [fst snd] in Hr.
      rewrite Ht1 in Hr.
      match type of Hr with
      | context [insert_by_node fuel (Some nl) ?x] =>
          pose proof (insert_by_node_cases fuel nl x) as Hc
      end.
      destruct (insert_by_node _ _ _) as [?|e1 s3| |]; try done.
      injection Hr as _ <-. subst s3. cbn [fst snd heap].
      rewrite with_volume_id by done. eauto.
    + left. unfold on_volume, zoom in Hins. cbn [fst snd] in Hins.
      rewrite Ht1 in Hins.
      match type of Hins with
      | context [insert_by_node fuel (Some nl) ?x] =>
          pose proof (insert_by_node_cases fuel nl x) as Hc
      end.
      destruct (insert_by_node _ _ _) as [r s3'| | |]; try done.
      injection Hins as <- <-. cbn [fst snd heap] in *.
      destruct Hc as (nn & sl & n' & Hnn & -> & Ht3 & Hn' & Hpar).
      rewrite list_lookup_middle in Hnn by done. injection Hnn as <-.
      cbn [peer_id] in Ht3.
      rewrite !bind_assoc in Hr.
      apply bind_Raise in Hr as [Hr|([] & s4 & Hadd & Hr)].
      { pose proof (add_host_bookkeeping_cases h p nl
                      (fst s3', with_volume v (snd s3') (snd s1))) as Hc.
        by rewrite Hr in Hc. }
      exfalso.
      pose proof (add_host_bookkeeping_cases h p nl
                    (fst s3', with_volume v (snd s3') (snd s1))) as Hc.
      rewrite Hadd in Hc. destruct Hc as [Ef Ev]. cbn [fst snd with_volume
        volumes] in Ef, Ev.
      rewrite !bind_assoc, bind_get_self in Hr.
      rewrite Ev, lookup_insert_eq, Ht3 in Hr. cbn [with_nodes nodes] in Hr.
      rewrite lookup_insert_eq, bind_ret in Hr. cbn [fst snd] in Hr.
      rewrite (bind_read _ n') in Hr by (by rewrite Ef).
      rewrite bind_get_self, Ev, lookup_insert_eq in Hr.
      case_bool_decide; [done|]. rewrite Hpar in Hr.
      apply bind_Raise in Hr as [Hr|(? & ? & _ & Hr)]; [|done].
      unfold read in Hr. by destruct (heap (fst s4) !! sl).
Qed.

(** C7, amended.  A failing [add_metadata] or [delete_metadata] leaves
    the volumes, the trees and the host index as they were, and every node
    object as it was.  So does a failing [get_parents], except that the tree
    it makes for a volume it had not seen is kept: the registry then holds
    one more volume, whose tree has its sentinel root only.  (The failure
    [Duplicate] of the host index is left out; identifiers handed out by the
    environment are never empty.) *)
Theorem failing_call_keeps_state `{UuidGen} fuel c
    (s s' : store * BtreeExecutor) e :
  (∀ n, generate_uuid n ≠ "") →
  run_call fuel c s = Raise e s' →
  match c with
  | CallAddMetadata _ _ _ _ _ _ | CallDeleteMetadata _ _ =>
      snd s' = snd s ∧ ∃ extra, heap (fst s') = heap (fst s) ++ extra
  | CallGetParents vid _ _ =>
      e = Duplicate ∨
      (host_to_volumes (snd s') = host_to_volumes (snd s) ∧
       (∃ extra, heap (fst s') = heap (fst s) ++ extra) ∧
       (volumes (snd s') = volumes (snd s) ∨
        ∃ v t, vid = Some v ∧ volumes (snd s) !! v = None ∧
               volumes (snd s') = <[v := t]> (volumes (snd s)) ∧
               count t = 1))
  end.
Proof.
  intros Hgen Hr. destruct c as [vid pid h p i l|vid pid|vid pid h];
    cbn [run_call] in Hr.
  - apply bind_Raise in Hr as [Hr|(? & ? & _ & Hr)]; [|done].
    by apply add_volume_metadata_Raise in Hr.
  - apply delete_volume_metadata_Raise in Hr as ->. split; [done|].
    exists []. by rewrite app_nil_r.
  - apply bind_Raise in Hr as [Hr|(? & ? & _ & Hr)]; [|done].
    by apply get_volume_parents_Raise in Hr.
Qed.


(** ** Scenarios on the registry *)

Lemma demo_id_nonempty n : demo_id n ≠ "".
Proof. by destruct n. Qed.

(** C3 as stated fails: after two host-only calls both peers are pending,
    no node is available, and the search runs into an empty child. *)
Lemma third_host_only_call_raises :
  (∃ s, two_pending_peers = Ok ("xxxxxxx", []) s) ∧
  ∃ s', after two_pending_peers
          (λ _, get_volume_parents (H:=demo_uuid) 10 (Some "vol-1") None
                  (Some "h3")) = Raise AttributeError s'.
Proof. split; eexists; vm_compute; reflexivity. Qed.

Lemma host_only_call_goes_under_first_child_witness :
  ∃ s, first_peer_confirmed = Ok ("xxxxxxx", []) s ∧
  ∃ s', get_volume_parents (H:=demo_uuid) 10 (Some "vol-1") None (Some "h3") s =
          Ok ("xxxxxxxx",
              [mkIdentity (Some "h1") (Some "3260") (Some "iqn.x") (Some "0")
                          (Some "OK") "xxxxxx"]) s'.
Proof.
  eexists. split; [vm_compute; reflexivity|].
  match goal with
  | |- ∃ _, get_volume_parents _ _ _ _ ?s = _ =>
      edestruct (host_only_call_goes_under_first_child (H:=demo_uuid) 10
                   "vol-1" "h3" s) as (_ & s' & Hs' & _)
  end.
  - lia.
  - vm_compute. reflexivity.
  - vm_compute. reflexivity.
  - vm_compute. reflexivity.
  - vm_compute. reflexivity.
  - vm_compute. reflexivity.
  - vm_compute. reflexivity.
  - vm_compute. reflexivity.
  - vm_compute. discriminate.
  - vm_compute. discriminate.
  - vm_compute. reflexivity.
  - intros m Hm. vm_compute in Hm. discriminate.
  - exists s'. exact Hs'.
Defined.

Lemma left_spine_walk_diverges_witness :
  ∃ s, confirmed_peer_with_two_pending_children =
         Ok ("xxxxxxxxx",
             [mkIdentity (Some "h1") (Some "3260") (Some "iqn.x") (Some "0")
                         (Some "OK") "xxxxxx"]) s ∧
       (nodes <$> volumes (snd s) !! "vol-1") ≫= (.!! "xxxxxx") = Some 1 ∧
       delete_volume_metadata 100 "vol-1" (Some "xxxxxx") s = OutOfFuel.
Proof.
  eexists. split_and!; [vm_compute; reflexivity..|].
  match goal with
  | |- delete_volume_metadata _ _ _ ?s = _ =>
      edestruct (left_spine_walk_diverges 100 "vol-1" "xxxxxx" s)
        as [_ Hdiv]
  end.
  - vm_compute. reflexivity.
  - vm_compute. reflexivity.
  - vm_compute. reflexivity.
  - vm_compute. reflexivity.
  - vm_compute. eexists. reflexivity.
  - vm_compute. discriminate.
  - vm_compute. reflexivity.
  - vm_compute. reflexivity.
  - vm_compute. reflexivity.
  - vm_compute. reflexivity.
  - vm_compute. reflexivity.
  - exact Hdiv.
Defined.

(** C5 as stated fails for [N = 4]: the third level, one of the first
    [⌊log2 4⌋ + 1], has position 6 empty. *)
Lemma four_inserts_leave_third_level_open :
  ∃ s', build_ok_tree (H:=demo_uuid) 10 "vol-1" (bare_peer "r")
          [bare_peer "a"; bare_peer "b"; bare_peer "c"; bare_peer "d"]
          empty_store = Ok tt s' ∧
        Pos.size_nat 6 ≤ Nat.log2 4 + 1 ∧
        at_pos (heap (fst s')) (root (snd s')) 6 = None.
Proof. eexists. split_and!; [vm_compute; reflexivity|cbn; lia|reflexivity]. Qed.

Lemma ok_inserts_build_complete_tree_witness :
  ∃ s', build_ok_tree (H:=demo_uuid) 10 "vol-1" (bare_peer "r")
          [bare_peer "a"; bare_peer "b"; bare_peer "c"; bare_peer "d"]
          empty_store = Ok tt s' ∧
        ∀ i, is_Some (at_pos (heap (fst s')) (root (snd s')) i) ↔
             Pos.to_nat i ≤ 5.
Proof.
  destruct (ok_inserts_build_complete_tree (H:=demo_uuid) 10 "vol-1"
              (bare_peer "r")
              [bare_peer "a"; bare_peer "b"; bare_peer "c"; bare_peer "d"]
              empty_store) as (s' & Hrun & Hiff & _).
  - apply (bool_decide_unpack _). vm_compute. exact I.
  - discriminate.
  - repeat constructor; discriminate.
  - cbn. lia.
  - exists s'. split; [exact Hrun|exact Hiff].
Defined.


(** C7 as stated fails: [get_parents] on an unseen volume and an unknown
    peer raises [NotFound] and leaves the new volume behind. *)
Lemma failed_get_parents_keeps_new_volume :
  ∃ s', get_volume_parents (H:=demo_uuid) 10 (Some "vol-1") (Some "nope") None
          fresh_registry = Raise NotFound s' ∧
        volumes (snd fresh_registry) !! "vol-1" = None ∧
        (count <$> volumes (snd s') !! "vol-1") = Some 1.
Proof. eexists. split_and!; vm_compute; reflexivity. Qed.

Lemma failing_call_keeps_state_witness :
  ∃ s', run_call (H:=demo_uuid) 10
          (CallGetParents (Some "vol-1") (Some "nope") None) fresh_registry =
          Raise NotFound s' ∧
        (NotFound = Duplicate ∨
         (host_to_volumes (snd s') = host_to_volumes (snd fresh_registry) ∧
          (∃ extra, heap (fst s') = heap (fst fresh_registry) ++ extra) ∧
          (volumes (snd s') = volumes (snd fresh_registry) ∨
           ∃ v t, Some "vol-1" = Some v ∧
                  volumes (snd fresh_registry) !! v = None ∧
                  volumes (snd s') =
                    <[v := t]> (volumes (snd fresh_registry)) ∧
                  count t = 1))).
Proof.
  eexists. split; [vm_compute; reflexivity|].
  apply (failing_call_keeps_state (H:=demo_uuid) 10
           (CallGetParents (Some "vol-1") (Some "nope") None) fresh_registry).
  - intros n. apply demo_id_nonempty.
  - vm_compute. reflexivity.
Defined.



Lemma get_volumes_detail_cases vid (s : store * BtreeExecutor) :
  match volumes (snd s) !! vid with
  | None => get_volumes_detail vid s = Ok [] s
  | Some t =>
      if decide (nodes t = ∅) then get_volumes_detail vid s = Ok [] s
      else get_volumes_detail vid s = Raise AttributeError s
  end.
Proof.
  unfold get_volumes_detail. rewrite bind_get_self.
  destruct (volumes (snd s) !! vid) as [t|]; [|done].
  case_decide as E.
  - rewrite E. by rewrite map_to_list_empty.
  - destruct (map_to_list (nodes t)) as [|kv kvs] eqn:El.
    + by apply map_to_list_empty_iff in El.
    + done.
Qed.

(** C9, on the code.  For a volume that the registry knows and whose
    tree has a node, [volume_detail] raises [AttributeError] instead of
    returning the details of the nodes; it returns the empty list for a
    volume it does not know.  So it is after one host-only call: the tree
    of the volume counts two nodes and the call raises. *)
Theorem volume_detail_raises_on_known_volume :
  (∀ vid (s : store * BtreeExecutor),
     match volumes (snd s) !! vid with
     | None => get_volumes_detail vid s = Ok [] s
     | Some t =>
         if decide (nodes t = ∅) then get_volumes_detail vid s = Ok [] s
         else get_volumes_detail vid s = Raise AttributeError s
     end) ∧
  ∃ s, one_pending_peer = Ok ("xxxxxx", []) s ∧
       (count <$> volumes (snd s) !! "vol-1") = Some 2 ∧
       get_volumes_detail "vol-1" s = Raise AttributeError s ∧
       get_volumes_detail "vol-2" s = Ok [] s.
Proof.
  split; [apply get_volumes_detail_cases|].
  eexists. split_and!; vm_compute; reflexivity.
Qed.


Lemma tree_ops_keep_structural_invariant_witness :
  ∃ s', fresh_tree_then (H:=demo_uuid) "vol-1" None
          (run_ops (H:=demo_uuid) 10 sample_ops) empty_store = Ok tt s' ∧
        structural_invariant (heap (fst s')) (snd s').
Proof.
  eexists. split; [vm_compute; reflexivity|].
  apply (tree_ops_keep_structural_invariant (H:=demo_uuid) 10 "vol-1" None
           sample_ops empty_store tt).
  vm_compute. reflexivity.
Defined.
